(** * Explicit finite-difference solver for the 2-D heat equation

    A shallow embedding of the notebook [heatequation.ipynb]: the parameter
    cell, the initial-condition cell, the construction of the banded
    operator [A] with scipy's [dia_array], the time-stepping loop filling
    [Z], and the fixed colour normalisation of the plot cell.  The theorems
    cover the entries of the operator, the recurrence and the shape of the
    frames, the boundary row, the behaviour on bad parameters, and the
    stability threshold [th <= h^2 / (4 a)].

    Numbers.  The notebook computes with IEEE floats (the operator in
    float64, the frames in float32).  The embedding idealises every scalar as
    a real number: [*], [+] and [/] are the exact operations of [R], and
    rounding, overflow and NaN are outside the model.  The statements that
    depend on the value of a scalar are therefore statements of exact
    arithmetic.  Where rounding decides a statement, the module [Float64]
    repeats the operator cell and the product in binary64, with Rocq's
    primitive floats.  Integers ([n], [t], offsets, indices) are Python
    integers, modelled by [Z] where the sign matters and by [nat] for
    positions inside an array.

    Errors.  A Python exception is a value [Raise e] of the [result] type;
    the model keeps the exception classes the interpreter and numpy/scipy
    raise on the paths the notebook can take. *)

From Stdlib Require Import String Floats Reals Lra Lia ZArith List Bool Arith.
Import ListNotations.

Open Scope R_scope.

(** ** Exceptions and the result monad *)

(** The classes of the exceptions.  The first three are the built-in ones
    the notebook can raise.  [InvalidParameters] is the error class named by
    the specification's taxonomy: the notebook defines no exception class of
    its own, so no definition below raises it. *)
Inductive pyerror : Type :=
| ZeroDivisionError
| ValueError
| IndexError
| InvalidParameters.

Inductive result (A : Type) : Type :=
| Ok (x : A)
| Raise (e : pyerror).

Arguments Ok {A} x.
Arguments Raise {A} e.

Definition bind {A B : Type} (m : result A) (k : A -> result B) : result B :=
  match m with
  | Ok x => k x
  | Raise e => Raise e
  end.

Notation "x <- m ;; k" := (bind m (fun x => k))
  (at level 61, m at next level, right associativity).

(** ** numpy and list primitives used by the notebook *)

(** [[x for i in range(k)]]: [range(k)] is empty when [k <= 0]. *)
Definition py_repeat {A : Type} (x : A) (k : Z) : list A :=
  repeat x (Z.to_nat k).

(** [np.tile(l, reps)] on a non-empty 1-D list: [reps] copies of [l]; a
    negative repeat count makes [ndarray.repeat] raise [ValueError]. *)
Definition np_tile (l : list R) (reps : Z) : result (list R) :=
  if (reps <? 0)%Z then Raise ValueError
  else Ok (concat (repeat l (Z.to_nat reps))).

(** [np.append(a, b)] on 1-D arrays. *)
Definition np_append (a b : list R) : list R := a ++ b.

(** [np.array(rows)] on a list of rows: a ragged list is refused. *)
Definition np_array (rows : list (list R)) : result (list (list R)) :=
  match rows with
  | [] => Ok rows
  | r :: rs =>
      if forallb (fun r' => Nat.eqb (length r') (length r)) rs
      then Ok rows else Raise ValueError
  end.

(** [arr * g + 1], elementwise. *)
Definition scale_shift (g : R) (l : list R) : list R :=
  map (fun c => c * g + 1) l.

(** ** Parameter cell *)

(** [g = (a * th) / h**2]: true division raises on a zero divisor.  Over
    the reals the square of a non-zero [h] is neither zero nor out of range;
    the underflow and the overflow of [h**2] in binary64 are not modelled. *)
Definition g (a th h : R) : result R :=
  if Req_dec_T (h ^ 2) 0 then Raise ZeroDivisionError
  else Ok ((a * th) / h ^ 2).

(** ** Initial-condition cell *)

(** Whether position [k] lies in the slice [n//3 : 2*n//3]. *)
Definition in_block (n : Z) (k : nat) : bool :=
  (n / 3 <=? Z.of_nat k)%Z && (Z.of_nat k <? 2 * n / 3)%Z.

(** [initial = np.array([[0 for i in range(n)] for i in range(n)])] followed
    by [initial[n//3:2*n//3, n//3:2*n//3] = 50].  When [n <= 0] the
    comprehension is empty, the array has one dimension only, and the
    assignment through two indices raises [IndexError]. *)
Definition initial_cell (n : Z) : result (list (list R)) :=
  if (n <=? 0)%Z then Raise IndexError
  else Ok (map (fun r =>
                  map (fun c => if in_block n r && in_block n c
                                then 50 else 0)
                    (seq 0 (Z.to_nat n)))
             (seq 0 (Z.to_nat n))).

(** ** Operator cell *)

(** [[-2] + [-3 for i in range(n-2)] + [-2]]: first and last grid row. *)
Definition border_coeffs (n : Z) : list R :=
  [-2] ++ py_repeat (-3) (n - 2) ++ [-2].

(** [[-3] + [-4 for i in range(n-2)] + [-3]]: a grid row in between. *)
Definition inner_coeffs (n : Z) : list R :=
  [-3] ++ py_repeat (-4) (n - 2) ++ [-3].

(** The five rows of [data], in the order of the source; the rows are
    evaluated first to last, so the first exception wins. *)
Definition data (n : Z) (g : R) : result (list (list R)) :=
  let d_up := py_repeat g (n ^ 2) in
  d_right <- np_tile ([0] ++ py_repeat g (n - 1)) n ;;
  mid <- np_tile (inner_coeffs n) (n - 2) ;;
  let d_center :=
    scale_shift g
      (np_append (np_append (border_coeffs n) mid) (border_coeffs n)) in
  d_left <- np_tile (py_repeat g (n - 1) ++ [0]) n ;;
  let d_down := py_repeat g (n ^ 2) in
  np_array [d_up; d_right; d_center; d_left; d_down].

(** [offsets = np.array([n, 1, 0, -1, -n])]. *)
Definition offsets (n : Z) : list Z := [n; 1; 0; - 1; - n]%Z.

(** A matrix in scipy's DIA format: row [k] of [dia_data] holds the diagonal
    of offset [nth k dia_offsets], and the entry of matrix row [i] and column
    [j = i + offset] is stored at position [j] of that row. *)
Record dia : Type := mk_dia {
  dia_data : list (list R);
  dia_offsets : list Z;
  dia_rows : nat;
  dia_cols : nat
}.

Fixpoint has_dup (l : list Z) : bool :=
  match l with
  | [] => false
  | x :: xs => existsb (Z.eqb x) xs || has_dup xs
  end.

(** [dia_array((data, offsets), shape=(r, c))]: the number of diagonals must
    match the number of offsets, and the offsets must be distinct. *)
Definition dia_array (dat : list (list R)) (offs : list Z) (r c : Z)
  : result dia :=
  if (r <? 0)%Z || (c <? 0)%Z then Raise ValueError
  else if negb (Nat.eqb (length dat) (length offs)) then Raise ValueError
  else if has_dup offs then Raise ValueError
  else Ok (mk_dia dat offs (Z.to_nat r) (Z.to_nat c)).

(** [A = dia_array((data, offsets), shape=(n**2, n**2)).tocsr()].  The
    conversion to CSR changes the storage, not the matrix, so [A] is kept in
    the diagonal representation. *)
Definition A (n : Z) (g : R) : result dia :=
  dat <- data n g ;;
  dia_array dat (offsets n) (n ^ 2) (n ^ 2).

(** The contribution of one stored diagonal to the matrix entry [(i, j)]. *)
Definition diag_entry (d : list R) (off : Z) (i j : nat) : R :=
  if (Z.of_nat j - Z.of_nat i =? off)%Z then nth j d 0 else 0.

Fixpoint sum_diags (f : list R -> Z -> R) (ds : list (list R)) (os : list Z)
  : R :=
  match ds, os with
  | d :: ds', o :: os' => f d o + sum_diags f ds' os'
  | _, _ => 0
  end.

(** The matrix entry [M[i, j]]; zero outside the shape. *)
Definition entry (M : dia) (i j : nat) : R :=
  if (i <? dia_rows M)%nat && (j <? dia_cols M)%nat
  then sum_diags (fun d off => diag_entry d off i j)
         (dia_data M) (dia_offsets M)
  else 0.

(** One stored diagonal's term of row [i] of the product [M.dot(x)]: the
    column is [j = i + off], when it lies inside the matrix. *)
Definition diag_term (cols : nat) (x : list R) (i : nat) (d : list R)
  (off : Z) : R :=
  let j := (Z.of_nat i + off)%Z in
  if (0 <=? j)%Z && (j <? Z.of_nat cols)%Z
  then nth (Z.to_nat j) d 0 * nth (Z.to_nat j) x 0
  else 0.

(** Row [i] of [M.dot(x)]. *)
Definition dot_row (M : dia) (x : list R) (i : nat) : R :=
  sum_diags (diag_term (dia_cols M) x i) (dia_data M) (dia_offsets M).

(** [M.dot(x)]: the banded matrix-vector product, one term per stored
    diagonal and row. *)
Definition dot (M : dia) (x : list R) : list R :=
  map (dot_row M x) (seq 0 (dia_rows M)).

(** ** Solution cell *)

(** [np.zeros((t, cols))]. *)
Definition np_zeros (t : Z) (cols : Z) : result (list (list R)) :=
  if (t <? 0)%Z || (cols <? 0)%Z then Raise ValueError
  else Ok (repeat (repeat 0 (Z.to_nat cols)) (Z.to_nat t)).

(** [initial.flatten()], row-major. *)
Definition flatten (grid : list (list R)) : list R := concat grid.

(** Replace position [i] of a list. *)
Fixpoint list_set {T : Type} (l : list T) (i : nat) (v : T) : list T :=
  match l, i with
  | [], _ => []
  | _ :: l', O => v :: l'
  | x :: l', S i' => x :: list_set l' i' v
  end.

(** [Z[i] = v]: the row index must exist, and [v] must have the row's length
    or a single element, which numpy broadcasts. *)
Definition set_row (Zs : list (list R)) (i : nat) (v : list R)
  : result (list (list R)) :=
  match nth_error Zs i with
  | None => Raise IndexError
  | Some old =>
      if Nat.eqb (length v) (length old) then Ok (list_set Zs i v)
      else match v with
           | [c] => Ok (list_set Zs i (repeat c (length old)))
           | _ => Raise ValueError
           end
  end.

(** The stop position of the slice [row[:n]] on a row of length [len]. *)
Definition slice_stop (len : nat) (n : Z) : nat :=
  if (n <? 0)%Z then Z.to_nat (Z.of_nat len + n)
  else Nat.min (Z.to_nat n) len.

(** [row[:n] = c]. *)
Definition fill_prefix (row : list R) (n : Z) (c : R) : list R :=
  let k := slice_stop (length row) n in
  repeat c k ++ skipn k row.

(** The body of the loop at step [i]:
    [Z[i] = A.dot(Z[i-1]); Z[i][:n] = bc]. *)
Definition loop_body (M : dia) (n : Z) (bc : R) (Zs : list (list R))
  (i : nat) : result (list (list R)) :=
  Z1 <- set_row Zs i (dot M (nth (i - 1) Zs [])) ;;
  Ok (list_set Z1 i (fill_prefix (nth i Z1 []) n bc)).

Fixpoint for_range (body : list (list R) -> nat -> result (list (list R)))
  (idx : list nat) (Zs : list (list R)) : result (list (list R)) :=
  match idx with
  | [] => Ok Zs
  | i :: idx' => Zs' <- body Zs i ;; for_range body idx' Zs'
  end.

(** [range(1, t)]. *)
Definition range_from_1 (t : Z) : list nat := seq 1 (Z.to_nat t - 1).

(** The array [Z] of the notebook (here [Zs]) at the end of the loop, before
    the final reshape.  The boundary value is the literal [50] in the
    notebook; it is a parameter here. *)
Definition time_series (M : dia) (n t : Z) (bc : R)
  (initial : list (list R)) : result (list (list R)) :=
  Z0 <- np_zeros t (n ^ 2) ;;
  Z1 <- set_row Z0 0 (flatten initial) ;;
  for_range (loop_body M n bc) (range_from_1 t) Z1.

(** One frame cut into [n] rows of [n] values. *)
Definition reshape_frame (n : nat) (v : list R) : list (list R) :=
  map (fun r => firstn n (skipn (r * n) v)) (seq 0 n).

(** [Z.reshape((t, n, n))]. *)
Definition reshape (n : Z) (Zs : list (list R)) : list (list (list R)) :=
  map (reshape_frame (Z.to_nat n)) Zs.

(** The notebook's parameters. *)
Record params : Type := mk_params {
  p_h : R;
  p_n : Z;
  p_th : R;
  p_t : Z;
  p_a : R
}.

(** The parameter cell followed by the operator cell. *)
Definition build (p : params) : result dia :=
  gam <- g (p_a p) (p_th p) (p_h p) ;;
  A (p_n p) gam.

(** The cells in order: parameters, operator, solution. *)
Definition solve (p : params) (bc : R) (initial : list (list R))
  : result (list (list (list R))) :=
  M <- build p ;;
  Zs <- time_series M (p_n p) (p_t p) bc initial ;;
  Ok (reshape (p_n p) Zs).

(** The notebook's own values: [h = 1], [n = 500], [th = 0.125],
    [t = 1000], [a = 2], and the boundary value [50]. *)
Definition notebook_params : params := mk_params 1 500 0.125 1000 2.
Definition notebook_boundary : R := 50.

(** The notebook run top to bottom with its own initial condition and
    boundary value, up to and including the solution cell: parameter cell,
    initial-condition cell, operator cell, solution cell.  The plot cell is
    not part of it; [norm], [animate] and [animation] below model that cell.
    In [solve] the initial condition and the boundary value are inputs
    instead. *)
Definition notebook (p : params) : result (list (list (list R))) :=
  gam <- g (p_a p) (p_th p) (p_h p) ;;
  init <- initial_cell (p_n p) ;;
  M <- A (p_n p) gam ;;
  Zs <- time_series M (p_n p) (p_t p) notebook_boundary init ;;
  Ok (reshape (p_n p) Zs).

(** [g] as a number, for parameters whose [h] is not zero. *)
Definition gamma (p : params) : R := (p_a p * p_th p) / p_h p ^ 2.

(** ** Plot cell *)

(** [Normalize(vmin, vmax)]: the colour scale of matplotlib. *)
Record Normalize : Type := mk_Normalize {
  vmin : R;
  vmax : R
}.

(** [np.min(initial)] and [np.max(initial)]; both raise on an empty array. *)
Definition np_min (grid : list (list R)) : result R :=
  match flatten grid with
  | [] => Raise ValueError
  | x :: xs => Ok (fold_left Rmin xs x)
  end.

Definition np_max (grid : list (list R)) : result R :=
  match flatten grid with
  | [] => Raise ValueError
  | x :: xs => Ok (fold_left Rmax xs x)
  end.

(** [norm = Normalize(np.min(initial), np.max(initial))]. *)
Definition norm (initial : list (list R)) : result Normalize :=
  lo <- np_min initial ;;
  hi <- np_max initial ;;
  Ok (mk_Normalize lo hi).

(** What one call of [animate] draws: the title and the arguments of
    [ax.imshow]. *)
Record drawing : Type := mk_drawing {
  dr_title : nat;
  dr_image : list (list R);
  dr_cmap : string;
  dr_norm : Normalize
}.

(** [animate(frame)]: shows [Z[frame*4]] with the global [norm]. *)
Definition animate (Zs : list (list (list R))) (nm : Normalize) (frame : nat)
  : result drawing :=
  match nth_error Zs (frame * 4) with
  | None => Raise IndexError
  | Some img => Ok (mk_drawing (frame * 4) img "turbo" nm)
  end.

Fixpoint map_result {X Y : Type} (f : X -> result Y) (l : list X)
  : result (list Y) :=
  match l with
  | [] => Ok []
  | x :: l' => y <- f x ;; ys <- map_result f l' ;; Ok (y :: ys)
  end.

(** [FuncAnimation(fig, animate, frames=(t-1) // 4)]: [animate] is called on
    [0, 1, ..., (t-1)//4 - 1]. *)
Definition animation (t : Z) (initial : list (list R))
  (Zs : list (list (list R))) : result (list drawing) :=
  nm <- norm initial ;;
  map_result (animate Zs nm) (seq 0 (Z.to_nat ((t - 1) / 4))).

(** ** Grid positions, in the words of the specification

    The definitions below do not come from the notebook: they name the grid
    notions the specification uses, so that the arrays built by the notebook
    can be compared with them.  A flat index [i] stands for the cell of row
    [i / n] and column [i mod n]. *)

Definition has_up (n i : nat) : bool := (n <=? i)%nat.
Definition has_down (n i : nat) : bool := (i + n <? n * n)%nat.
Definition has_left (n i : nat) : bool := negb (i mod n =? 0)%nat.
Definition has_right (n i : nat) : bool := negb (i mod n =? n - 1)%nat.

(** The number of grid neighbours of cell [i] that exist. *)
Definition neighbours (n i : nat) : nat :=
  (if has_up n i then 1 else 0) + (if has_down n i then 1 else 0)
  + (if has_left n i then 1 else 0) + (if has_right n i then 1 else 0).

Definition is_interior (n i : nat) : Prop := neighbours n i = 4%nat.
Definition is_plain_edge (n i : nat) : Prop := neighbours n i = 3%nat.
Definition is_corner (n i : nat) : Prop := neighbours n i = 2%nat.

(** The centre coefficient of the stencil at cell [i]: minus the number of
    neighbours present. *)
Definition center_coefficient (n i : nat) : R := - INR (neighbours n i).

(** ** The operator on a grid of side [n >= 2]

    For a natural number [n] the five rows of [data] are the lists below;
    [A_built] shows that the operator cell returns exactly them. *)

Definition row_right (n : nat) (gam : R) : list R :=
  concat (repeat ([0] ++ repeat gam (n - 1)) n).

Definition row_left (n : nat) (gam : R) : list R :=
  concat (repeat (repeat gam (n - 1) ++ [0]) n).

Definition border_row (n : nat) : list R :=
  [-2] ++ repeat (-3) (n - 2) ++ [-2].

Definition inner_row (n : nat) : list R :=
  [-3] ++ repeat (-4) (n - 2) ++ [-3].

Definition row_center (n : nat) (gam : R) : list R :=
  scale_shift gam
    ((border_row n ++ concat (repeat (inner_row n) (n - 2))) ++ border_row n).

Definition operator (n : nat) (gam : R) : dia :=
  mk_dia
    [repeat gam (n * n); row_right n gam; row_center n gam; row_left n gam;
     repeat gam (n * n)]
    (offsets (Z.of_nat n)) (n * n) (n * n).

(** Row [i] of the product written as a five-point stencil: the centre
    value and the neighbours that exist, each weighted by [gam]. *)
Definition stencil (n : nat) (gam : R) (x : list R) (i : nat) : R :=
  (center_coefficient n i * gam + 1) * nth i x 0
  + (if has_right n i then gam * nth (i + 1) x 0 else 0)
  + (if has_left n i then gam * nth (i - 1) x 0 else 0)
  + (if has_down n i then gam * nth (i + n) x 0 else 0)
  + (if has_up n i then gam * nth (i - n) x 0 else 0).

(** ** The loop in closed form *)

(** What one pass of the loop body computes from the previous frame. *)
Definition step (M : dia) (n : Z) (bc : R) (x : list R) : list R :=
  fill_prefix (dot M x) n bc.

(** The [m] frames that follow the frame [x]. *)
Fixpoint frames_after (f : list R -> list R) (x : list R) (m : nat)
  : list (list R) :=
  match m with
  | O => []
  | S m' => f x :: frames_after f (f x) m'
  end.

(** The frame reached from [x] after [k] steps. *)
Fixpoint frame_at (f : list R -> list R) (x : list R) (k : nat) : list R :=
  match k with
  | O => x
  | S k' => f (frame_at f x k')
  end.

(** ** Sums, inner products and magnitudes *)

(** [f 0 + f 1 + ... + f (m-1)]. *)
Fixpoint sum_upto (f : nat -> R) (m : nat) : R :=
  match m with
  | O => 0
  | S m' => sum_upto f m' + f m'
  end.

(** The inner product of the first [m] entries of two vectors. *)
Definition inner (m : nat) (x y : list R) : R :=
  sum_upto (fun i => nth i x 0 * nth i y 0) m.

(** [np.max(np.abs(v))] of a non-empty vector. *)
Definition max_abs (v : list R) : R :=
  fold_right (fun y m => Rmax (Rabs y) m) 0 v.

(** ** The specification's concrete scenario

    [n = 4], [h = 1], [a = 1], [th = 0.1] (so [g = 0.1]), three time steps,
    all zeros except the centre block at 10, boundary value 5. *)

Definition scenario_params : params := mk_params 1 4 0.1 3 1.

Definition scenario_initial : list (list R) :=
  [ [0; 0; 0; 0]; [0; 10; 10; 0]; [0; 10; 10; 0]; [0; 0; 0; 0] ].

Definition scenario_boundary : R := 5.

(** ** A test input for the unstable regime

    A checkerboard of [+1] and [-1] below a first grid row of zeros, with
    the boundary value [0]. *)







(** ** Tactics for case analyses on offsets and positions *)

Ltac decide_offsets :=
  repeat match goal with
         | |- context [Z.eqb ?x ?y] =>
             destruct (Z.eqb_spec x y); try lia
         end.

Ltac decide_positions :=
  repeat match goal with
         | |- context [Nat.eqb ?x ?y] =>
             destruct (Nat.eqb_spec x y); try lia
         end.

(** The cells that follow the parameter cell, run top to bottom up to the
    solution cell, from the value [gam] that the parameter cell has left in
    [g]: [notebook p] is the parameter cell followed by these. *)
Definition later_cells (gam : R) (n t : Z)
  : result (list (list (list R))) :=
  init <- initial_cell n ;;
  M <- A n gam ;;
  Zs <- time_series M n t notebook_boundary init ;;
  Ok (reshape n Zs).

(** ** The initial-condition cell, statement by statement

    [initial_cell] above gives the result of the cell in closed form.  The
    definitions below follow its two statements: the comprehension that
    builds the rows of zeros, and the assignment of [50] through two
    slices. *)

(** [[[0 for i in range(n)] for i in range(n)]]. *)
Definition zero_rows (n : Z) : list (list R) :=
  py_repeat (py_repeat 0 n) n.

(** A slice bound [k] on an axis of length [len], as Python normalises it:
    a negative bound counts from the end, and the result is clipped to the
    axis. *)
Definition slice_bound (len : nat) (k : Z) : nat :=
  Z.to_nat
    (Z.min (Z.max (if (k <? 0)%Z then k + Z.of_nat len else k) 0)
       (Z.of_nat len)).

(** The positions from [lo] to [hi] (excluded) of a list rewritten by [f];
    an empty range changes nothing. *)
Definition update_range {T : Type} (f : T -> T) (l : list T) (lo hi : nat)
  : list T :=
  if (lo <? hi)%nat
  then firstn lo l ++ map f (firstn (hi - lo) (skipn lo l)) ++ skipn hi l
  else l.

(** [row[a:b] = v] for a scalar [v]. *)
Definition assign_slice (row : list R) (a b : Z) (v : R) : list R :=
  update_range (fun _ => v) row
    (slice_bound (length row) a) (slice_bound (length row) b).

(** [grid[a:b, c:d] = v] on a 2-D array. *)
Definition assign_block (grid : list (list R)) (a b c d : Z) (v : R)
  : list (list R) :=
  update_range (fun row => assign_slice row c d v) grid
    (slice_bound (length grid) a) (slice_bound (length grid) b).

(** The cell: [np.array] of an empty list has one dimension only, and the
    assignment through two indices then raises [IndexError]. *)
Definition initial_steps (n : Z) : result (list (list R)) :=
  match zero_rows n with
  | [] => Raise IndexError
  | rows =>
      Ok (assign_block rows (n / 3) (2 * n / 3) (n / 3) (2 * n / 3) 50)
  end.

(** ** The operator cell in binary64

    The definitions above take the scalars as real numbers.  The module
    below repeats the operator cell and the product with the scalars the
    notebook computes with, IEEE binary64 floats (Rocq's primitive floats):
    every [*] and [+] rounds to nearest, ties to even.  It serves the
    statements that exact arithmetic cannot decide. *)

Module Float64.

(** [np.tile(l, reps)]. *)
Definition np_tile (l : list float) (reps : Z) : result (list float) :=
  if (reps <? 0)%Z then Raise ValueError
  else Ok (concat (repeat l (Z.to_nat reps))).

(** [np.append(a, b)]. *)
Definition np_append (a b : list float) : list float := a ++ b.

(** [np.array(rows)]: a ragged list is refused. *)
Definition np_array (rows : list (list float)) : result (list (list float)) :=
  match rows with
  | [] => Ok rows
  | r :: rs =>
      if forallb (fun r' => Nat.eqb (length r') (length r)) rs
      then Ok rows else Raise ValueError
  end.

(** [arr * g + 1], elementwise: the product is rounded, then the sum. *)
Definition scale_shift (g : float) (l : list float) : list float :=
  map (fun c => PrimFloat.add (PrimFloat.mul c g) 1%float) l.

Definition border_coeffs (n : Z) : list float :=
  [(-2)%float] ++ py_repeat (-3)%float (n - 2) ++ [(-2)%float].

Definition inner_coeffs (n : Z) : list float :=
  [(-3)%float] ++ py_repeat (-4)%float (n - 2) ++ [(-3)%float].

(** The five rows of [data]. *)
Definition data (n : Z) (g : float) : result (list (list float)) :=
  let d_up := py_repeat g (n ^ 2) in
  d_right <- np_tile ([0%float] ++ py_repeat g (n - 1)) n ;;
  mid <- np_tile (inner_coeffs n) (n - 2) ;;
  let d_center :=
    scale_shift g
      (np_append (np_append (border_coeffs n) mid) (border_coeffs n)) in
  d_left <- np_tile (py_repeat g (n - 1) ++ [0%float]) n ;;
  let d_down := py_repeat g (n ^ 2) in
  np_array [d_up; d_right; d_center; d_left; d_down].

(** A matrix in DIA format with binary64 entries. *)
Record dia : Type := mk_dia {
  dia_data : list (list float);
  dia_offsets : list Z;
  dia_rows : nat;
  dia_cols : nat
}.

Definition dia_array (dat : list (list float)) (offs : list Z) (r c : Z)
  : result dia :=
  if (r <? 0)%Z || (c <? 0)%Z then Raise ValueError
  else if negb (Nat.eqb (length dat) (length offs)) then Raise ValueError
  else if has_dup offs then Raise ValueError
  else Ok (mk_dia dat offs (Z.to_nat r) (Z.to_nat c)).

(** Insertion of one diagonal among diagonals sorted by offset. *)
Fixpoint insert_diag (d : list float) (o : Z) (ds : list (list float * Z))
  : list (list float * Z) :=
  match ds with
  | [] => [(d, o)]
  | (d', o') :: rest =>
      if (o <=? o')%Z then (d, o) :: ds
      else (d', o') :: insert_diag d o rest
  end.

Fixpoint sort_diags (ds : list (list float * Z)) : list (list float * Z) :=
  match ds with
  | [] => []
  | (d, o) :: rest => insert_diag d o (sort_diags rest)
  end.

(** [.tocsr()]: the matrix is the same; the entries of a row are now kept
    by increasing column, that is, the diagonals by increasing offset. *)
Definition tocsr (M : dia) : dia :=
  let sorted := sort_diags (combine (dia_data M) (dia_offsets M)) in
  mk_dia (map fst sorted) (map snd sorted) (dia_rows M) (dia_cols M).

(** [dia_array((data, offsets), shape=(n**2, n**2))], before [.tocsr()]. *)
Definition A_dia (n : Z) (g : float) : result dia :=
  dat <- data n g ;;
  dia_array dat (offsets n) (n ^ 2) (n ^ 2).

(** [A = dia_array((data, offsets), shape=(n**2, n**2)).tocsr()]. *)
Definition A (n : Z) (g : float) : result dia :=
  M <- A_dia n g ;;
  Ok (tocsr M).

(** Row [i] of [M.dot(x)]: starting from zero, the terms of the stored
    entries of the row are added one after the other, in storage order. *)
Fixpoint accumulate (cols : nat) (x : list float) (i : nat) (acc : float)
  (ds : list (list float)) (os : list Z) : float :=
  match ds, os with
  | d :: ds', o :: os' =>
      let j := (Z.of_nat i + o)%Z in
      let acc' :=
        if (0 <=? j)%Z && (j <? Z.of_nat cols)%Z
        then PrimFloat.add acc
               (PrimFloat.mul (nth (Z.to_nat j) d 0%float)
                  (nth (Z.to_nat j) x 0%float))
        else acc in
      accumulate cols x i acc' ds' os'
  | _, _ => acc
  end.

Definition dot_row (M : dia) (x : list float) (i : nat) : float :=
  accumulate (dia_cols M) x i 0%float (dia_data M) (dia_offsets M).

(** [M.dot(x)]. *)
Definition dot (M : dia) (x : list float) : list float :=
  map (dot_row M x) (seq 0 (dia_rows M)).

(** The binary64 value nearest to one tenth, [g] of the concrete
    scenario. *)
Definition tenth : float := 0x1.999999999999ap-4%float.

End Float64.

(** ** Small runs of the model *)

Example g_notebook : g 2 0.125 1 = Ok 0.25.
Proof.
  unfold g. destruct (Req_dec_T (1 ^ 2) 0) as [E | _]; [lra |].
  f_equal. lra.
Qed.

Example data_2 (gam : R) :
  data 2 gam =
  Ok [ [gam; gam; gam; gam];
       [0; gam; 0; gam];
       [-2 * gam + 1; -2 * gam + 1; -2 * gam + 1; -2 * gam + 1];
       [gam; 0; gam; 0];
       [gam; gam; gam; gam] ].
Proof. reflexivity. Qed.

Example data_3_center (gam : R) :
  (dat <- data 3 gam ;; Ok (nth 2 dat [])) =
  Ok [ -2 * gam + 1; -3 * gam + 1; -2 * gam + 1;
       -3 * gam + 1; -4 * gam + 1; -3 * gam + 1;
       -2 * gam + 1; -3 * gam + 1; -2 * gam + 1 ].
Proof. reflexivity. Qed.

Example initial_cell_6 :
  initial_cell 6 =
  Ok [ [0; 0; 0; 0; 0; 0]; [0; 0; 0; 0; 0; 0]; [0; 0; 50; 50; 0; 0];
       [0; 0; 50; 50; 0; 0]; [0; 0; 0; 0; 0; 0]; [0; 0; 0; 0; 0; 0] ].
Proof. reflexivity. Qed.

Example data_1_raises (gam : R) : data 1 gam = Raise ValueError.
Proof. reflexivity. Qed.

Example data_0_raises (gam : R) : data 0 gam = Raise ValueError.
Proof. reflexivity. Qed.

(** ** Lists: tiles, updates, slices *)

Lemma length_concat_repeat (l : list R) (k : nat) :
  length (concat (repeat l k)) = (k * length l)%nat.
Proof.
  induction k as [| k IH]; simpl; [reflexivity |].
  rewrite length_app, IH. reflexivity.
Qed.

Lemma nth_concat_repeat (l : list R) (k j : nat) (d : R) :
  (j < k * length l)%nat ->
  nth j (concat (repeat l k)) d = nth (j mod length l) l d.
Proof.
  revert j. induction k as [| k IH]; intros j Hj; simpl in *; [lia |].
  destruct (Nat.lt_ge_cases j (length l)) as [Hlt | Hge].
  - rewrite app_nth1 by exact Hlt. rewrite Nat.mod_small by exact Hlt.
    reflexivity.
  - rewrite app_nth2 by exact Hge. rewrite IH by lia.
    f_equal.
    assert (Hl : length l <> 0%nat) by lia.
    replace j with ((j - length l) + 1 * length l)%nat at 2 by lia.
    rewrite Nat.Div0.mod_add. reflexivity.
Qed.

Lemma nth_repeat_lt {T : Type} (x d : T) (k j : nat) :
  (j < k)%nat -> nth j (repeat x k) d = x.
Proof.
  revert j. induction k as [| k IH]; intros [| j] Hj; simpl; try lia;
    [reflexivity | apply IH; lia].
Qed.

Lemma length_list_set {T : Type} (l : list T) (i : nat) (v : T) :
  length (list_set l i v) = length l.
Proof.
  revert i. induction l as [| x l IH]; intros [| i]; simpl; auto.
Qed.

Lemma nth_list_set_eq {T : Type} (l : list T) (i : nat) (v d : T) :
  (i < length l)%nat -> nth i (list_set l i v) d = v.
Proof.
  revert i. induction l as [| x l IH]; intros [| i] Hi; simpl in *;
    try lia; [reflexivity | apply IH; lia].
Qed.

Lemma nth_list_set_neq {T : Type} (l : list T) (i j : nat) (v d : T) :
  i <> j -> nth j (list_set l i v) d = nth j l d.
Proof.
  revert i j. induction l as [| x l IH]; intros [| i] [| j] Hij; simpl;
    try reflexivity; try lia.
  apply IH. lia.
Qed.

Lemma list_set_twice {T : Type} (l : list T) (i : nat) (v w : T) :
  list_set (list_set l i v) i w = list_set l i w.
Proof.
  revert i. induction l as [| x l IH]; intros [| i]; simpl;
    try reflexivity.
  f_equal. apply IH.
Qed.

Lemma length_fill_prefix (row : list R) (n : Z) (c : R) :
  length (fill_prefix row n c) = length row.
Proof.
  unfold fill_prefix, slice_stop.
  rewrite length_app, repeat_length, length_skipn.
  destruct (Z.ltb_spec n 0); lia.
Qed.

Lemma nth_fill_prefix_lt (row : list R) (n j : nat) (c : R) :
  (j < n)%nat -> (n <= length row)%nat ->
  nth j (fill_prefix row (Z.of_nat n) c) 0 = c.
Proof.
  intros Hj Hn. unfold fill_prefix, slice_stop.
  destruct (Z.ltb_spec (Z.of_nat n) 0) as [Hneg | _]; [lia |].
  rewrite Nat2Z.id, Nat.min_l by exact Hn.
  rewrite app_nth1 by (rewrite repeat_length; exact Hj).
  apply nth_repeat_lt. exact Hj.
Qed.

Lemma nth_fill_prefix_ge (row : list R) (n j : nat) (c : R) :
  (n <= j)%nat -> (n <= length row)%nat ->
  nth j (fill_prefix row (Z.of_nat n) c) 0 = nth j row 0.
Proof.
  intros Hj Hn. unfold fill_prefix, slice_stop.
  destruct (Z.ltb_spec (Z.of_nat n) 0) as [Hneg | _]; [lia |].
  rewrite Nat2Z.id, Nat.min_l by exact Hn.
  rewrite app_nth2 by (rewrite repeat_length; exact Hj).
  rewrite repeat_length, nth_skipn. f_equal. lia.
Qed.

Lemma fill_prefix_split (row : list R) (n : nat) (c : R) :
  (n <= length row)%nat ->
  fill_prefix row (Z.of_nat n) c = repeat c n ++ skipn n row.
Proof.
  intros Hn. unfold fill_prefix, slice_stop.
  destruct (Z.ltb_spec (Z.of_nat n) 0) as [Hneg | _]; [lia |].
  rewrite Nat2Z.id, Nat.min_l by exact Hn. reflexivity.
Qed.

(** ** The operator cell succeeds for [n >= 2] *)

Lemma length_border_row (n : nat) : (2 <= n)%nat -> length (border_row n) = n.
Proof.
  intros Hn. unfold border_row. rewrite !length_app, repeat_length. simpl. lia.
Qed.

Lemma length_inner_row (n : nat) : (2 <= n)%nat -> length (inner_row n) = n.
Proof.
  intros Hn. unfold inner_row. rewrite !length_app, repeat_length. simpl. lia.
Qed.

Lemma length_row_right (n : nat) (gam : R) :
  (2 <= n)%nat -> length (row_right n gam) = (n * n)%nat.
Proof.
  intros Hn. unfold row_right.
  rewrite length_concat_repeat, length_app, repeat_length. simpl.
  f_equal. lia.
Qed.

Lemma length_row_left (n : nat) (gam : R) :
  (2 <= n)%nat -> length (row_left n gam) = (n * n)%nat.
Proof.
  intros Hn. unfold row_left.
  rewrite length_concat_repeat, length_app, repeat_length. simpl.
  f_equal. lia.
Qed.

Lemma length_row_center (n : nat) (gam : R) :
  (2 <= n)%nat -> length (row_center n gam) = (n * n)%nat.
Proof.
  intros Hn. unfold row_center, scale_shift.
  rewrite length_map, !length_app, length_concat_repeat.
  rewrite length_border_row, length_inner_row by exact Hn. nia.
Qed.

Lemma offsets_distinct (n : nat) :
  (2 <= n)%nat -> has_dup (offsets (Z.of_nat n)) = false.
Proof.
  intros Hn. unfold offsets, has_dup, existsb.
  repeat match goal with
         | |- context [Z.eqb ?x ?y] =>
             destruct (Z.eqb_spec x y); [lia |]
         end.
  reflexivity.
Qed.

Lemma A_built (n : nat) (gam : R) :
  (2 <= n)%nat -> A (Z.of_nat n) gam = Ok (operator n gam).
Proof.
  intros Hn. unfold A, data, np_tile.
  destruct (Z.ltb_spec (Z.of_nat n) 0) as [? | _]; [lia |].
  destruct (Z.ltb_spec (Z.of_nat n - 2) 0) as [? | _]; [lia |].
  unfold bind at 1 2 3. unfold py_repeat, border_coeffs, inner_coeffs,
    np_append, py_repeat.
  replace (Z.to_nat (Z.of_nat n - 1)) with (n - 1)%nat by lia.
  replace (Z.to_nat (Z.of_nat n - 2)) with (n - 2)%nat by lia.
  replace (Z.to_nat (Z.of_nat n ^ 2)) with (n * n)%nat by nia.
  rewrite Nat2Z.id.
  fold (border_row n) (inner_row n) (row_right n gam) (row_left n gam).
  fold (row_center n gam).
  unfold np_array, forallb. unfold bind.
  rewrite length_row_right, length_row_center, length_row_left by exact Hn.
  rewrite !repeat_length, Nat.eqb_refl. simpl andb. cbv iota.
  unfold dia_array.
  destruct (Z.ltb_spec (Z.of_nat n ^ 2) 0) as [? | _]; [nia |].
  simpl orb. cbv iota.
  rewrite offsets_distinct by exact Hn.
  simpl negb. cbv iota. unfold operator.
  replace (Z.to_nat (Z.of_nat n ^ 2)) with (n * n)%nat by nia.
  reflexivity.
Qed.

(** ** The stored diagonals, position by position *)

Lemma nth_ends (x y : R) (n c : nat) (d : R) :
  (2 <= n)%nat -> (c < n)%nat ->
  nth c ([x] ++ repeat y (n - 2) ++ [x]) d =
  if ((c =? 0) || (c =? n - 1))%nat then x else y.
Proof.
  intros Hn Hc. destruct c as [| c]; [reflexivity |].
  change (nth (S c) ([x] ++ repeat y (n - 2) ++ [x]) d)
    with (nth c (repeat y (n - 2) ++ [x]) d).
  change (S c =? 0)%nat with false. cbv beta iota delta [orb].
  destruct (Nat.eqb_spec (S c) (n - 1)) as [E | E].
  - rewrite app_nth2 by (rewrite repeat_length; lia).
    rewrite repeat_length. replace (c - (n - 2))%nat with 0%nat by lia.
    reflexivity.
  - rewrite app_nth1 by (rewrite repeat_length; lia).
    apply nth_repeat_lt. lia.
Qed.

Lemma nth_row_right (n : nat) (gam : R) (j : nat) :
  (2 <= n)%nat -> (j < n * n)%nat ->
  nth j (row_right n gam) 0 = if has_left n j then gam else 0.
Proof.
  intros Hn Hj. unfold row_right, has_left.
  assert (Hl : length ([0] ++ repeat gam (n - 1)) = n)
    by (rewrite length_app, repeat_length; simpl; lia).
  rewrite nth_concat_repeat by (rewrite Hl; exact Hj).
  rewrite Hl.
  assert (Hm : (j mod n < n)%nat) by (apply Nat.mod_upper_bound; lia).
  destruct (j mod n)%nat as [| c]; [reflexivity |].
  simpl. apply nth_repeat_lt. lia.
Qed.

Lemma nth_row_left (n : nat) (gam : R) (j : nat) :
  (2 <= n)%nat -> (j < n * n)%nat ->
  nth j (row_left n gam) 0 = if has_right n j then gam else 0.
Proof.
  intros Hn Hj. unfold row_left, has_right.
  assert (Hl : length (repeat gam (n - 1) ++ [0]) = n)
    by (rewrite length_app, repeat_length; simpl; lia).
  rewrite nth_concat_repeat by (rewrite Hl; exact Hj).
  rewrite Hl.
  assert (Hm : (j mod n < n)%nat) by (apply Nat.mod_upper_bound; lia).
  destruct (Nat.eqb_spec (j mod n) (n - 1)) as [E | E]; simpl negb.
  - rewrite app_nth2 by (rewrite repeat_length; lia).
    rewrite repeat_length, E, Nat.sub_diag. reflexivity.
  - rewrite app_nth1 by (rewrite repeat_length; lia).
    apply nth_repeat_lt. lia.
Qed.

Lemma mod_sub_multiple (n j k : nat) :
  (n <> 0)%nat -> (k * n <= j)%nat -> ((j - k * n) mod n = j mod n)%nat.
Proof.
  intros Hn Hk.
  replace j with ((j - k * n) + k * n)%nat at 2 by lia.
  rewrite Nat.Div0.mod_add. reflexivity.
Qed.

(** The integer coefficients of the centre row, before scaling. *)
Lemma nth_center_coeffs (n j : nat) :
  (2 <= n)%nat -> (j < n * n)%nat ->
  nth j ((border_row n ++ concat (repeat (inner_row n) (n - 2)))
         ++ border_row n) 0
  = center_coefficient n j.
Proof.
  intros Hn Hj.
  assert (Hm : (j mod n < n)%nat) by (apply Nat.mod_upper_bound; lia).
  assert (Hmid : length (border_row n
                         ++ concat (repeat (inner_row n) (n - 2)))
                 = (n * (n - 1))%nat).
  { rewrite length_app, length_concat_repeat, length_border_row,
      length_inner_row by exact Hn. nia. }
  unfold center_coefficient, neighbours, has_up, has_down, has_left,
    has_right.
  destruct (Nat.lt_ge_cases j n) as [Htop | Hlow].
  - (* first grid row *)
    rewrite app_nth1 by (rewrite Hmid; nia).
    rewrite app_nth1 by (rewrite length_border_row; lia).
    unfold border_row. rewrite nth_ends by lia.
    rewrite Nat.mod_small in * by exact Htop.
    destruct (Nat.leb_spec n j); [lia |].
    destruct (Nat.ltb_spec (j + n) (n * n)); [| nia].
    destruct (Nat.eqb_spec j 0), (Nat.eqb_spec j (n - 1));
      simpl; try lia; lra.
  - destruct (Nat.lt_ge_cases j (n * (n - 1))) as [Hin | Hbot].
    + (* a grid row in between *)
      rewrite app_nth1 by (rewrite Hmid; exact Hin).
      rewrite app_nth2 by (rewrite length_border_row; lia).
      rewrite length_border_row by exact Hn.
      rewrite nth_concat_repeat
        by (rewrite length_inner_row by exact Hn; nia).
      rewrite length_inner_row by exact Hn.
      replace (j - n)%nat with (j - 1 * n)%nat by lia.
      rewrite mod_sub_multiple by lia.
      unfold inner_row. rewrite nth_ends by lia.
      destruct (Nat.leb_spec n j); [| lia].
      destruct (Nat.ltb_spec (j + n) (n * n)); [| nia].
      destruct (Nat.eqb_spec (j mod n) 0), (Nat.eqb_spec (j mod n) (n - 1));
        simpl; try lia; lra.
    + (* last grid row *)
      rewrite app_nth2 by (rewrite Hmid; exact Hbot).
      rewrite Hmid.
      assert (Hlast : (j - n * (n - 1) = j mod n)%nat).
      { replace (n * (n - 1))%nat with ((n - 1) * n)%nat by lia.
        rewrite <- (mod_sub_multiple n j (n - 1)) by nia.
        symmetry. apply Nat.mod_small. nia. }
      rewrite Hlast. unfold border_row. rewrite nth_ends by lia.
      destruct (Nat.leb_spec n j); [| lia].
      destruct (Nat.ltb_spec (j + n) (n * n)); [nia |].
      destruct (Nat.eqb_spec (j mod n) 0), (Nat.eqb_spec (j mod n) (n - 1));
        simpl; try lia; lra.
Qed.

Lemma nth_row_center (n : nat) (gam : R) (j : nat) :
  (2 <= n)%nat -> (j < n * n)%nat ->
  nth j (row_center n gam) 0 = center_coefficient n j * gam + 1.
Proof.
  intros Hn Hj. unfold row_center, scale_shift.
  rewrite (nth_indep _ 0 (0 * gam + 1))
    by (rewrite <- (length_row_center n gam Hn) in Hj; exact Hj).
  rewrite (map_nth (fun c => c * gam + 1)).
  rewrite nth_center_coeffs by assumption. reflexivity.
Qed.

(** ** Entries of the operator *)

Lemma mod_succ_zero (n i : nat) :
  (1 <= n)%nat -> ((i + 1) mod n = 0 <-> i mod n = n - 1)%nat.
Proof.
  intros Hn.
  assert (Hm : (i mod n < n)%nat) by (apply Nat.mod_upper_bound; lia).
  rewrite <- Nat.Div0.add_mod_idemp_l.
  destruct (Nat.eq_dec (i mod n) (n - 1)) as [E | E].
  - rewrite E. replace (n - 1 + 1)%nat with n by lia.
    rewrite Nat.Div0.mod_same. tauto.
  - rewrite Nat.mod_small by lia. lia.
Qed.

Lemma has_left_succ (n i : nat) :
  (1 <= n)%nat -> has_left n (i + 1) = has_right n i.
Proof.
  intros Hn. unfold has_left, has_right. f_equal.
  pose proof (mod_succ_zero n i Hn) as H.
  destruct (Nat.eqb_spec ((i + 1) mod n) 0),
    (Nat.eqb_spec (i mod n) (n - 1)); tauto.
Qed.

Lemma entry_operator (n : nat) (gam : R) (i j : nat) :
  (2 <= n)%nat -> (i < n * n)%nat -> (j < n * n)%nat ->
  entry (operator n gam) i j =
  if (j =? i)%nat then center_coefficient n i * gam + 1
  else if (j =? i + 1)%nat then (if has_right n i then gam else 0)
  else if (i =? j + 1)%nat then (if has_left n i then gam else 0)
  else if ((j =? i + n) || (i =? j + n))%nat then gam
  else 0.
Proof.
  intros Hn Hi Hj. unfold entry, operator. cbn [dia_rows dia_cols].
  destruct (Nat.ltb_spec i (n * n)); [| lia].
  destruct (Nat.ltb_spec j (n * n)); [| lia].
  cbn [andb dia_data dia_offsets offsets sum_diags]. unfold diag_entry.
  destruct (Nat.eqb_spec j i) as [-> | Hne].
  { decide_offsets. rewrite nth_row_center by assumption. lra. }
  destruct (Nat.eqb_spec j (i + 1)) as [-> | Hne1].
  { decide_offsets. rewrite nth_row_right by assumption.
    rewrite has_left_succ by lia. lra. }
  destruct (Nat.eqb_spec i (j + 1)) as [-> | Hne2].
  { decide_offsets. rewrite nth_row_left by assumption.
    rewrite <- has_left_succ by lia. lra. }
  destruct (Nat.eqb_spec j (i + n)) as [-> | Hne3].
  { decide_offsets. rewrite nth_repeat_lt by assumption.
    cbn [orb]. lra. }
  destruct (Nat.eqb_spec i (j + n)) as [-> | Hne4].
  { decide_offsets. rewrite nth_repeat_lt by assumption.
    cbn [orb]. lra. }
  decide_offsets. cbn [orb]. lra.
Qed.

(** ** Rows of the product *)

Lemma last_cell_has_no_right (n i : nat) :
  (2 <= n)%nat -> (i + 1 = n * n)%nat -> has_right n i = false.
Proof.
  intros Hn Hi. unfold has_right.
  assert (H : ((i + 1) mod n = 0)%nat).
  { rewrite Hi. apply Nat.Div0.mod_mul. }
  apply mod_succ_zero in H; [| lia].
  rewrite H, Nat.eqb_refl. reflexivity.
Qed.

Lemma dot_row_stencil (n : nat) (gam : R) (x : list R) (i : nat) :
  (2 <= n)%nat -> (i < n * n)%nat ->
  dot_row (operator n gam) x i = stencil n gam x i.
Proof.
  intros Hn Hi. unfold dot_row, operator, stencil.
  cbn [dia_cols dia_data dia_offsets offsets sum_diags]. unfold diag_term.
  (* offset n: the cell below *)
  assert (Hdown :
    (if (0 <=? Z.of_nat i + Z.of_nat n)%Z
        && (Z.of_nat i + Z.of_nat n <? Z.of_nat (n * n))%Z
     then nth (Z.to_nat (Z.of_nat i + Z.of_nat n)) (repeat gam (n * n)) 0
          * nth (Z.to_nat (Z.of_nat i + Z.of_nat n)) x 0
     else 0)
    = if has_down n i then gam * nth (i + n) x 0 else 0).
  { unfold has_down.
    replace (Z.to_nat (Z.of_nat i + Z.of_nat n)) with (i + n)%nat by lia.
    destruct (Z.leb_spec 0 (Z.of_nat i + Z.of_nat n)); [| lia].
    destruct (Z.ltb_spec (Z.of_nat i + Z.of_nat n) (Z.of_nat (n * n))),
      (Nat.ltb_spec (i + n) (n * n)); try lia; cbn [andb];
      [| reflexivity].
    rewrite nth_repeat_lt by assumption. reflexivity. }
  (* offset -n: the cell above *)
  assert (Hup :
    (if (0 <=? Z.of_nat i + - Z.of_nat n)%Z
        && (Z.of_nat i + - Z.of_nat n <? Z.of_nat (n * n))%Z
     then nth (Z.to_nat (Z.of_nat i + - Z.of_nat n)) (repeat gam (n * n)) 0
          * nth (Z.to_nat (Z.of_nat i + - Z.of_nat n)) x 0
     else 0)
    = if has_up n i then gam * nth (i - n) x 0 else 0).
  { unfold has_up.
    replace (Z.to_nat (Z.of_nat i + - Z.of_nat n)) with (i - n)%nat by lia.
    destruct (Z.ltb_spec (Z.of_nat i + - Z.of_nat n) (Z.of_nat (n * n)));
      [| lia].
    destruct (Z.leb_spec 0 (Z.of_nat i + - Z.of_nat n)),
      (Nat.leb_spec n i); try lia; cbn [andb]; [| reflexivity].
    rewrite nth_repeat_lt by lia. reflexivity. }
  (* offset 1: the cell to the right *)
  assert (Hright :
    (if (0 <=? Z.of_nat i + 1)%Z && (Z.of_nat i + 1 <? Z.of_nat (n * n))%Z
     then nth (Z.to_nat (Z.of_nat i + 1)) (row_right n gam) 0
          * nth (Z.to_nat (Z.of_nat i + 1)) x 0
     else 0)
    = if has_right n i then gam * nth (i + 1) x 0 else 0).
  { replace (Z.to_nat (Z.of_nat i + 1)) with (i + 1)%nat by lia.
    destruct (Z.leb_spec 0 (Z.of_nat i + 1)); [| lia].
    destruct (Z.ltb_spec (Z.of_nat i + 1) (Z.of_nat (n * n))); cbn [andb].
    - rewrite nth_row_right by lia. rewrite has_left_succ by lia.
      destruct (has_right n i); lra.
    - rewrite last_cell_has_no_right by lia. reflexivity. }
  (* offset -1: the cell to the left *)
  assert (Hleft :
    (if (0 <=? Z.of_nat i + - 1)%Z && (Z.of_nat i + - 1 <? Z.of_nat (n * n))%Z
     then nth (Z.to_nat (Z.of_nat i + - 1)) (row_left n gam) 0
          * nth (Z.to_nat (Z.of_nat i + - 1)) x 0
     else 0)
    = if has_left n i then gam * nth (i - 1) x 0 else 0).
  { replace (Z.to_nat (Z.of_nat i + - 1)) with (i - 1)%nat by lia.
    destruct (Z.ltb_spec (Z.of_nat i + - 1) (Z.of_nat (n * n))); [| lia].
    destruct (Z.leb_spec 0 (Z.of_nat i + - 1)); cbn [andb].
    - rewrite nth_row_left by lia.
      replace (has_left n i) with (has_left n (i - 1 + 1))
        by (f_equal; lia).
      rewrite has_left_succ by lia.
      destruct (has_right n (i - 1)); lra.
    - replace i with 0%nat by lia. unfold has_left.
      rewrite Nat.Div0.mod_0_l. reflexivity. }
  (* offset 0: the cell itself *)
  assert (Hcenter :
    (if (0 <=? Z.of_nat i + 0)%Z && (Z.of_nat i + 0 <? Z.of_nat (n * n))%Z
     then nth (Z.to_nat (Z.of_nat i + 0)) (row_center n gam) 0
          * nth (Z.to_nat (Z.of_nat i + 0)) x 0
     else 0)
    = (center_coefficient n i * gam + 1) * nth i x 0).
  { replace (Z.to_nat (Z.of_nat i + 0)) with i by lia.
    destruct (Z.leb_spec 0 (Z.of_nat i + 0)); [| lia].
    destruct (Z.ltb_spec (Z.of_nat i + 0) (Z.of_nat (n * n))); [| lia].
    cbn [andb]. rewrite nth_row_center by assumption. reflexivity. }
  rewrite Hdown, Hup, Hright, Hleft, Hcenter. lra.
Qed.

(** ** The time-stepping loop *)

Lemma length_dot (M : dia) (x : list R) : length (dot M x) = dia_rows M.
Proof. unfold dot. rewrite length_map, length_seq. reflexivity. Qed.

Lemma length_step (M : dia) (n : Z) (bc : R) (x : list R) :
  length (step M n bc x) = dia_rows M.
Proof. unfold step. rewrite length_fill_prefix. apply length_dot. Qed.

Lemma list_set_middle {T : Type} (l1 l2 : list T) (x v : T) :
  list_set (l1 ++ x :: l2) (length l1) v = l1 ++ v :: l2.
Proof.
  induction l1 as [| y l1 IH]; simpl; [reflexivity |].
  f_equal. exact IH.
Qed.

Lemma nth_middle_last {T : Type} (l1 l2 : list T) (x d : T) :
  nth (length l1) (l1 ++ x :: l2) d = x.
Proof.
  rewrite app_nth2 by lia. rewrite Nat.sub_diag. reflexivity.
Qed.

(** One pass over a buffer whose next row is still zero. *)
Lemma loop_body_appends (M : dia) (n : Z) (bc : R)
  (done : list (list R)) (x : list R) (m : nat) :
  loop_body M n bc
    ((done ++ [x]) ++ repeat (repeat 0 (dia_rows M)) (S m))
    (length (done ++ [x]))
  = Ok (((done ++ [x]) ++ [step M n bc x])
        ++ repeat (repeat 0 (dia_rows M)) m).
Proof.
  unfold loop_body, set_row. cbn [repeat].
  rewrite nth_error_app2 by lia. rewrite Nat.sub_diag. cbn [nth_error].
  rewrite length_dot, repeat_length, Nat.eqb_refl. cbn [bind].
  rewrite list_set_middle, list_set_middle, nth_middle_last.
  replace (length (done ++ [x]) - 1)%nat with (length done)
    by (rewrite length_app; simpl; lia).
  rewrite <- !app_assoc. cbn [app].
  rewrite nth_middle_last. reflexivity.
Qed.

Lemma for_range_appends (M : dia) (n : Z) (bc : R) (m : nat) :
  forall (done : list (list R)) (x : list R),
    for_range (loop_body M n bc) (seq (length (done ++ [x])) m)
      ((done ++ [x]) ++ repeat (repeat 0 (dia_rows M)) m)
    = Ok ((done ++ [x]) ++ frames_after (step M n bc) x m).
Proof.
  induction m as [| m IH]; intros done x.
  - reflexivity.
  - cbn [seq for_range frames_after].
    rewrite loop_body_appends. cbn [bind].
    replace (S (length (done ++ [x])))
      with (length ((done ++ [x]) ++ [step M n bc x]))
      by (rewrite !length_app; simpl; lia).
    rewrite IH. rewrite <- (app_assoc (done ++ [x])). reflexivity.
Qed.

(** The whole solution cell: the buffer ends as the initial frame followed
    by the frames the steps produce. *)
Lemma time_series_frames (M : dia) (n : nat) (t : Z) (bc : R)
  (initial : list (list R)) :
  (1 <= t)%Z ->
  dia_rows M = (n * n)%nat ->
  length (flatten initial) = (n * n)%nat ->
  time_series M (Z.of_nat n) t bc initial
  = Ok (flatten initial
        :: frames_after (step M (Z.of_nat n) bc) (flatten initial)
             (Z.to_nat t - 1)).
Proof.
  intros Ht Hrows Hlen. unfold time_series, np_zeros.
  destruct (Z.ltb_spec t 0) as [? | _]; [lia |].
  destruct (Z.ltb_spec (Z.of_nat n ^ 2) 0) as [? | _]; [nia |].
  cbn [orb bind].
  replace (Z.to_nat (Z.of_nat n ^ 2)) with (n * n)%nat by nia.
  replace (Z.to_nat t) with (S (Z.to_nat t - 1)) at 1 by lia.
  unfold set_row. cbn [repeat nth_error].
  rewrite Hlen, repeat_length, Nat.eqb_refl. cbn [bind list_set].
  unfold range_from_1.
  pose proof (for_range_appends M (Z.of_nat n) bc (Z.to_nat t - 1) []
                (flatten initial)) as H.
  cbn [app length] in H. rewrite Hrows in H. exact H.
Qed.

Lemma length_frames_after (f : list R -> list R) (x : list R) (m : nat) :
  length (frames_after f x m) = m.
Proof.
  revert x. induction m as [| m IH]; intros x; simpl; [reflexivity |].
  rewrite IH. reflexivity.
Qed.

Lemma nth_frames_after (f : list R -> list R) (x : list R) (m k : nat) :
  (k < m)%nat -> nth k (frames_after f x m) [] = frame_at f x (S k).
Proof.
  revert x k. induction m as [| m IH]; intros x k Hk; [lia |].
  destruct k as [| k]; [reflexivity |].
  cbn [frames_after nth]. rewrite IH by lia.
  clear. induction k as [| k IHk]; [reflexivity |].
  change (frame_at f (f x) (S (S k))) with (f (frame_at f (f x) (S k))).
  rewrite IHk. reflexivity.
Qed.

Lemma nth_series (f : list R -> list R) (x : list R) (m k : nat) :
  (k <= m)%nat -> nth k (x :: frames_after f x m) [] = frame_at f x k.
Proof.
  intros Hk. destruct k as [| k]; [reflexivity |].
  cbn [nth]. apply nth_frames_after. lia.
Qed.

(** ** The parameter and operator cells *)

Lemma g_ok (a th h : R) : h <> 0 -> g a th h = Ok ((a * th) / h ^ 2).
Proof.
  intros Hh. unfold g.
  destruct (Req_dec_T (h ^ 2) 0) as [E | _]; [| reflexivity].
  exfalso. apply Hh. simpl in E. nra.
Qed.

Lemma g_zero (a th : R) : g a th 0 = Raise ZeroDivisionError.
Proof.
  unfold g. destruct (Req_dec_T (0 ^ 2) 0) as [_ | E]; [reflexivity |].
  exfalso. apply E. ring.
Qed.

Lemma data_small_raises (n : Z) (gam : R) :
  (n < 2)%Z -> data n gam = Raise ValueError.
Proof.
  intros Hn. unfold data, np_tile.
  destruct (Z.ltb_spec n 0) as [Hneg | Hpos]; [reflexivity |].
  destruct (Z.ltb_spec (n - 2) 0) as [_ | ?]; [reflexivity | lia].
Qed.

Lemma build_ok (p : params) (n : nat) :
  p_h p <> 0 -> p_n p = Z.of_nat n -> (2 <= n)%nat ->
  build p = Ok (operator n (gamma p)).
Proof.
  intros Hh Hn Hge. unfold build. rewrite g_ok by exact Hh.
  cbn [bind]. rewrite Hn. apply A_built. exact Hge.
Qed.

Lemma has_right_next_cell (n i : nat) :
  (2 <= n)%nat -> (i < n * n)%nat -> has_right n i = true ->
  (i + 1 < n * n)%nat.
Proof.
  intros Hn Hi Hr.
  destruct (Nat.eq_dec (i + 1) (n * n)) as [E | E]; [| lia].
  rewrite (last_cell_has_no_right n i Hn E) in Hr. discriminate.
Qed.

Lemma neighbours_range (n i : nat) :
  (2 <= n)%nat -> (i < n * n)%nat ->
  (2 <= neighbours n i <= 4)%nat.
Proof.
  intros Hn Hi. unfold neighbours, has_up, has_down, has_left, has_right.
  destruct (Nat.leb_spec n i), (Nat.ltb_spec (i + n) (n * n));
    destruct (Nat.eqb_spec (i mod n) 0), (Nat.eqb_spec (i mod n) (n - 1));
    cbn [negb]; try lia; nia.
Qed.

(** The vertical tests, read on the grid row [i / n]. *)
Lemma has_up_row (n i : nat) :
  (1 <= n)%nat -> has_up n i = (0 <? i / n)%nat.
Proof.
  intros Hn. unfold has_up.
  destruct (Nat.leb_spec n i) as [H | H], (Nat.ltb_spec 0 (i / n)) as [H' | H'];
    try reflexivity; exfalso.
  - assert (i / n = 0)%nat as E by lia.
    apply Nat.div_small_iff in E; lia.
  - rewrite Nat.div_small in H' by exact H. lia.
Qed.

Lemma has_down_row (n i : nat) :
  (1 <= n)%nat -> has_down n i = (i / n <? n - 1)%nat.
Proof.
  intros Hn. unfold has_down.
  pose proof (Nat.div_mod_eq i n) as Hdm.
  assert (Hm : (i mod n < n)%nat) by (apply Nat.mod_upper_bound; lia).
  destruct (Nat.ltb_spec (i + n) (n * n)) as [H | H],
    (Nat.ltb_spec (i / n) (n - 1)) as [H' | H'];
    try reflexivity; exfalso; nia.
Qed.

(** ** The operator: diagonal, neighbours, symmetry *)

(** C2.  In the operator the cells build, the main-diagonal entry of every
    flat index [i] is [1 + g * c i], where [g = a * th / h^2] and [c i] is
    minus the number of grid neighbours of cell [i]: [-4] for an interior
    cell (four neighbours), [-3] for an edge cell that is no corner (three),
    [-2] for a corner (two); every cell is of one of these three kinds. *)
Theorem diagonal_entry (p : params) (n i : nat) :
  p_h p <> 0 -> p_n p = Z.of_nat n -> (2 <= n)%nat -> (i < n * n)%nat ->
  exists M,
    build p = Ok M
    /\ entry M i i = 1 + gamma p * center_coefficient n i
    /\ (is_interior n i -> center_coefficient n i = -4)
    /\ (is_plain_edge n i -> center_coefficient n i = -3)
    /\ (is_corner n i -> center_coefficient n i = -2)
    /\ (is_interior n i \/ is_plain_edge n i \/ is_corner n i).
Proof.
  intros Hh Hn Hge Hi. exists (operator n (gamma p)).
  split; [apply build_ok; assumption |].
  split.
  - rewrite entry_operator by assumption. rewrite Nat.eqb_refl. lra.
  - unfold is_interior, is_plain_edge, is_corner, center_coefficient.
    pose proof (neighbours_range n i Hge Hi) as Hr.
    repeat split.
    + intros ->. simpl. lra.
    + intros ->. simpl. lra.
    + intros ->. simpl. lra.
    + lia.
Qed.

Lemma diagonal_entry_witness :
  exists M,
    build scenario_params = Ok M
    /\ entry M 5 5 = 1 + gamma scenario_params * center_coefficient 4 5
    /\ (is_interior 4 5 -> center_coefficient 4 5 = -4)
    /\ (is_plain_edge 4 5 -> center_coefficient 4 5 = -3)
    /\ (is_corner 4 5 -> center_coefficient 4 5 = -2)
    /\ (is_interior 4 5 \/ is_plain_edge 4 5 \/ is_corner 4 5).
Proof.
  apply (diagonal_entry scenario_params 4 5).
  - simpl. lra.
  - reflexivity.
  - lia.
  - simpl. lia.
Defined.

(** C3.  Horizontal neighbour entries do not wrap across grid rows: the
    entry towards [i+1] is zero for a cell of column [n-1], the entry
    towards [i-1] is zero for a cell of column [0], and both are [g]
    otherwise.  Vertical neighbour entries towards [i+n] and [i-n] are [g]
    whenever that index lies in the matrix; when it does not, the row of the
    product has no term for it.  Every other entry off the diagonal is
    zero. *)
Theorem neighbour_entries (p : params) (n i : nat) :
  p_h p <> 0 -> p_n p = Z.of_nat n -> (2 <= n)%nat -> (i < n * n)%nat ->
  exists M,
    build p = Ok M
    /\ ((i + 1 < n * n)%nat ->
        entry M i (i + 1) = if (i mod n =? n - 1)%nat then 0 else gamma p)
    /\ ((1 <= i)%nat ->
        entry M i (i - 1) = if (i mod n =? 0)%nat then 0 else gamma p)
    /\ ((i + n < n * n)%nat -> entry M i (i + n) = gamma p)
    /\ ((n <= i)%nat -> entry M i (i - n) = gamma p)
    /\ (forall j, (j < n * n)%nat ->
          j <> i -> j <> (i + 1)%nat -> i <> (j + 1)%nat ->
          j <> (i + n)%nat -> i <> (j + n)%nat -> entry M i j = 0)
    /\ (forall x, dot_row M x i = stencil n (gamma p) x i).
Proof.
  intros Hh Hn Hge Hi. exists (operator n (gamma p)).
  split; [apply build_ok; assumption |].
  repeat split.
  - intros H. rewrite entry_operator by assumption. unfold has_right.
    decide_positions; reflexivity.
  - intros H. rewrite entry_operator by lia. unfold has_left.
    decide_positions; reflexivity.
  - intros H. rewrite entry_operator by assumption.
    decide_positions. reflexivity.
  - intros H. rewrite entry_operator by lia.
    decide_positions. reflexivity.
  - intros j Hj H1 H2 H3 H4 H5. rewrite entry_operator by assumption.
    decide_positions. reflexivity.
  - intros x. apply dot_row_stencil; assumption.
Qed.

Lemma neighbour_entries_witness :
  exists M,
    build scenario_params = Ok M
    /\ entry M 3 4 = 0
    /\ entry M 4 3 = 0
    /\ entry M 5 6 = gamma scenario_params
    /\ entry M 5 9 = gamma scenario_params
    /\ entry M 5 1 = gamma scenario_params.
Proof.
  destruct (neighbour_entries scenario_params 4 3)
    as [M [HM [Hr [_ [_ [_ _]]]]]];
    [simpl; lra | reflexivity | lia | simpl; lia |].
  destruct (neighbour_entries scenario_params 4 4)
    as [M4 [HM4 [_ [Hl [_ [_ _]]]]]];
    [simpl; lra | reflexivity | lia | simpl; lia |].
  destruct (neighbour_entries scenario_params 4 5)
    as [M5 [HM5 [Hr5 [_ [Hd [Hu _]]]]]];
    [simpl; lra | reflexivity | lia | simpl; lia |].
  assert (E4 : M4 = M) by congruence.
  assert (E5 : M5 = M) by congruence.
  subst M4 M5. exists M.
  split; [exact HM |].
  split; [apply Hr; simpl; lia |].
  split; [apply Hl; lia |].
  split; [apply Hr5; simpl; lia |].
  split; [apply Hd; simpl; lia | apply Hu; lia].
Defined.

Lemma entry_operator_sym (n : nat) (gam : R) (i j : nat) :
  (2 <= n)%nat -> (i < n * n)%nat -> (j < n * n)%nat ->
  entry (operator n gam) i j = entry (operator n gam) j i.
Proof.
  intros Hge Hi Hj. rewrite !entry_operator by assumption.
  destruct (Nat.eq_dec j i) as [-> | Hne]; [reflexivity |].
  destruct (Nat.eq_dec j (i + 1)) as [-> | Hne1].
  { decide_positions. rewrite has_left_succ by lia. reflexivity. }
  destruct (Nat.eq_dec i (j + 1)) as [-> | Hne2].
  { decide_positions. rewrite has_left_succ by lia. reflexivity. }
  decide_positions; reflexivity.
Qed.

(** C10.  The operator is symmetric: [A[i, j] = A[j, i]] for all flat
    indices below [n^2]. *)
Theorem operator_symmetric (p : params) (n i j : nat) :
  p_h p <> 0 -> p_n p = Z.of_nat n -> (2 <= n)%nat ->
  (i < n * n)%nat -> (j < n * n)%nat ->
  exists M, build p = Ok M /\ entry M i j = entry M j i.
Proof.
  intros Hh Hn Hge Hi Hj. exists (operator n (gamma p)).
  split; [apply build_ok; assumption |].
  apply entry_operator_sym; assumption.
Qed.

Lemma operator_symmetric_witness :
  exists M, build scenario_params = Ok M /\ entry M 3 4 = entry M 4 3.
Proof.
  apply (operator_symmetric scenario_params 4 3 4).
  - simpl. lra.
  - reflexivity.
  - lia.
  - simpl. lia.
  - simpl. lia.
Defined.

(** ** The frames of the time series *)

Lemma length_frame_at (M : dia) (n : Z) (bc : R) (x : list R) (k : nat) :
  length x = dia_rows M ->
  length (frame_at (step M n bc) x k) = dia_rows M.
Proof.
  intros Hx. destruct k as [| k]; [exact Hx |].
  cbn [frame_at]. apply length_step.
Qed.

(** C1.  Frame [0] of the time series is the flattened initial condition,
    untouched by the boundary value, and for every step [i] with
    [1 <= i < t] frame [i] is the operator applied to frame [i-1] whose
    first [n] entries (grid row 0) are then overwritten by the boundary
    constant. *)
Theorem frames_recurrence (p : params) (n : nat) (bc : R)
  (initial : list (list R)) :
  p_h p <> 0 -> p_n p = Z.of_nat n -> (2 <= n)%nat -> (1 <= p_t p)%Z ->
  length (flatten initial) = (n * n)%nat ->
  exists M Zs,
    build p = Ok M
    /\ time_series M (p_n p) (p_t p) bc initial = Ok Zs
    /\ nth 0 Zs [] = flatten initial
    /\ forall i, (1 <= i)%nat -> (Z.of_nat i < p_t p)%Z ->
         nth i Zs [] = fill_prefix (dot M (nth (i - 1) Zs [])) (p_n p) bc
         /\ nth i Zs [] = repeat bc n ++ skipn n (dot M (nth (i - 1) Zs [])).
Proof.
  intros Hh Hn Hge Ht Hlen.
  exists (operator n (gamma p)).
  exists (flatten initial
          :: frames_after (step (operator n (gamma p)) (p_n p) bc)
               (flatten initial) (Z.to_nat (p_t p) - 1)).
  split; [apply build_ok; assumption |].
  split; [rewrite Hn; apply time_series_frames; auto |].
  split; [reflexivity |].
  intros i Hi Hit.
  assert (Hstep :
    nth i (flatten initial
           :: frames_after (step (operator n (gamma p)) (p_n p) bc)
                (flatten initial) (Z.to_nat (p_t p) - 1)) []
    = fill_prefix
        (dot (operator n (gamma p))
           (nth (i - 1)
              (flatten initial
               :: frames_after (step (operator n (gamma p)) (p_n p) bc)
                    (flatten initial) (Z.to_nat (p_t p) - 1)) []))
        (p_n p) bc).
  { rewrite !nth_series by lia.
    replace i with (S (i - 1)) at 1 by lia. reflexivity. }
  split; [exact Hstep |].
  rewrite Hstep, Hn. apply fill_prefix_split.
  rewrite length_dot. cbn [operator dia_rows]. nia.
Qed.

Lemma frames_recurrence_witness :
  exists M Zs,
    build scenario_params = Ok M
    /\ time_series M 4 3 scenario_boundary scenario_initial = Ok Zs
    /\ nth 0 Zs [] = flatten scenario_initial
    /\ nth 1 Zs [] = repeat scenario_boundary 4 ++ skipn 4 (dot M (nth 0 Zs [])).
Proof.
  destruct (frames_recurrence scenario_params 4 scenario_boundary
              scenario_initial) as [M [Zs [HM [HZ [H0 Hi]]]]].
  - simpl. lra.
  - reflexivity.
  - lia.
  - simpl. lia.
  - reflexivity.
  - exists M, Zs. repeat split; try assumption.
    apply (Hi 1%nat); simpl; lia.
Defined.

(** C4.  After every step [i >= 1], each entry of frame [i] at a flat index
    of the boundary set (the first [n] indices, grid row 0) is exactly the
    boundary constant. *)
Theorem boundary_held (p : params) (n : nat) (bc : R)
  (initial : list (list R)) :
  p_h p <> 0 -> p_n p = Z.of_nat n -> (2 <= n)%nat -> (1 <= p_t p)%Z ->
  length (flatten initial) = (n * n)%nat ->
  exists M Zs,
    build p = Ok M
    /\ time_series M (p_n p) (p_t p) bc initial = Ok Zs
    /\ forall i j, (1 <= i)%nat -> (Z.of_nat i < p_t p)%Z -> (j < n)%nat ->
         nth j (nth i Zs []) 0 = bc.
Proof.
  intros Hh Hn Hge Ht Hlen.
  exists (operator n (gamma p)).
  exists (flatten initial
          :: frames_after (step (operator n (gamma p)) (p_n p) bc)
               (flatten initial) (Z.to_nat (p_t p) - 1)).
  split; [apply build_ok; assumption |].
  split; [rewrite Hn; apply time_series_frames; auto |].
  intros i j Hi Hit Hj.
  rewrite nth_series by lia.
  replace i with (S (i - 1)) by lia. cbn [frame_at]. unfold step.
  rewrite Hn. apply nth_fill_prefix_lt; [exact Hj |].
  rewrite length_dot. cbn [operator dia_rows]. nia.
Qed.

Lemma boundary_held_witness :
  exists M Zs,
    build scenario_params = Ok M
    /\ time_series M 4 3 scenario_boundary scenario_initial = Ok Zs
    /\ nth 3 (nth 2 Zs []) 0 = scenario_boundary.
Proof.
  destruct (boundary_held scenario_params 4 scenario_boundary
              scenario_initial) as [M [Zs [HM [HZ Hb]]]].
  - simpl. lra.
  - reflexivity.
  - lia.
  - simpl. lia.
  - reflexivity.
  - exists M, Zs. repeat split; try assumption.
    apply Hb; simpl; lia.
Defined.

(** ** The reshaped output *)

Lemma length_reshape_frame (n : nat) (v : list R) :
  length (reshape_frame n v) = n.
Proof. unfold reshape_frame. rewrite length_map, length_seq. reflexivity. Qed.

Lemma rows_reshape_frame (n : nat) (v : list R) :
  length v = (n * n)%nat ->
  Forall (fun row => length row = n) (reshape_frame n v).
Proof.
  intros Hv. unfold reshape_frame. apply Forall_forall.
  intros row Hin. apply in_map_iff in Hin as [r [<- Hr]].
  apply in_seq in Hr. rewrite length_firstn, length_skipn, Hv. nia.
Qed.

(** C7.  The output of the solution cell is the sequence of exactly [t]
    frames, in step order, each an array of [n] rows of [n] values. *)
Theorem output_shape (p : params) (n : nat) (bc : R)
  (initial : list (list R)) :
  p_h p <> 0 -> p_n p = Z.of_nat n -> (2 <= n)%nat -> (1 <= p_t p)%Z ->
  length (flatten initial) = (n * n)%nat ->
  exists M out,
    build p = Ok M
    /\ solve p bc initial = Ok out
    /\ length out = Z.to_nat (p_t p)
    /\ Forall (fun frame =>
                 length frame = n
                 /\ Forall (fun row => length row = n) frame) out
    /\ forall k, (k < Z.to_nat (p_t p))%nat ->
         nth k out []
         = reshape_frame n (frame_at (step M (p_n p) bc) (flatten initial) k).
Proof.
  intros Hh Hn Hge Ht Hlen.
  set (M := operator n (gamma p)).
  set (Zs := flatten initial
             :: frames_after (step M (p_n p) bc) (flatten initial)
                  (Z.to_nat (p_t p) - 1)).
  assert (Hlens : forall k, (k < Z.to_nat (p_t p))%nat ->
            nth k Zs [] = frame_at (step M (p_n p) bc) (flatten initial) k).
  { intros k Hk. unfold Zs. apply nth_series. lia. }
  assert (HZs : length Zs = Z.to_nat (p_t p)).
  { unfold Zs. cbn [length]. rewrite length_frames_after. lia. }
  exists M, (reshape (p_n p) Zs).
  split; [apply build_ok; assumption |].
  split.
  { unfold solve. rewrite (build_ok p n) by assumption. cbn [bind].
    fold M. rewrite Hn at 1.
    rewrite time_series_frames by (auto; reflexivity).
    cbn [bind]. rewrite <- Hn. reflexivity. }
  split; [unfold reshape; rewrite length_map; exact HZs |].
  split.
  - unfold reshape. rewrite Hn, Nat2Z.id. apply Forall_forall.
    intros frame Hin. apply in_map_iff in Hin as [v [<- Hv]].
    split; [apply length_reshape_frame |].
    apply rows_reshape_frame.
    apply (In_nth _ _ []) in Hv as [k [Hk <-]].
    rewrite Hlens by lia.
    rewrite length_frame_at; [reflexivity | exact Hlen].
  - intros k Hk. unfold reshape.
    rewrite (nth_indep _ [] (reshape_frame (Z.to_nat (p_n p)) []))
      by (rewrite length_map; lia).
    rewrite (map_nth (reshape_frame (Z.to_nat (p_n p)))).
    rewrite Hlens by exact Hk. rewrite Hn, Nat2Z.id. reflexivity.
Qed.

Lemma output_shape_witness :
  exists out,
    solve scenario_params scenario_boundary scenario_initial = Ok out
    /\ length out = 3%nat
    /\ Forall (fun frame =>
                 length frame = 4%nat
                 /\ Forall (fun row => length row = 4%nat) frame) out.
Proof.
  destruct (output_shape scenario_params 4 scenario_boundary
              scenario_initial) as [M [out [_ [Hs [Hl [Hf _]]]]]].
  - simpl. lra.
  - reflexivity.
  - lia.
  - simpl. lia.
  - reflexivity.
  - exists out. repeat split; assumption.
Defined.

(** ** Failing parameters *)

(** C6, as the notebook behaves.  When [h = 0] or [n < 2] the cells that
    build the operator fail before an operator exists, and so does the whole
    run, whatever the initial condition: with [ZeroDivisionError] from the
    division in the parameter cell when [h = 0], and otherwise with the
    [ValueError] raised inside [np.tile].  The failure is never the
    specification's [InvalidParameters]. *)
Theorem bad_parameters_fail (p : params) :
  p_h p = 0 \/ (p_n p < 2)%Z ->
  exists e,
    build p = Raise e
    /\ (forall bc initial, solve p bc initial = Raise e)
    /\ (p_h p = 0 -> e = ZeroDivisionError)
    /\ (p_h p <> 0 -> e = ValueError)
    /\ e <> InvalidParameters.
Proof.
  intros H. destruct (Req_dec_T (p_h p) 0) as [Hz | Hnz].
  - exists ZeroDivisionError.
    assert (Hb : build p = Raise ZeroDivisionError).
    { unfold build. rewrite Hz, g_zero. reflexivity. }
    repeat split; try congruence.
    intros bc initial. unfold solve. rewrite Hb. reflexivity.
  - destruct H as [Hz | Hn]; [contradiction |].
    exists ValueError.
    assert (Hb : build p = Raise ValueError).
    { unfold build, A. rewrite g_ok by exact Hnz. cbn [bind].
      rewrite data_small_raises by exact Hn. reflexivity. }
    repeat split; try congruence.
    intros bc initial. unfold solve. rewrite Hb. reflexivity.
Qed.

Lemma bad_parameters_fail_witness :
  (exists e,
     build (mk_params 0 500 0.125 1000 2) = Raise e
     /\ e = ZeroDivisionError)
  /\ (exists e,
        build (mk_params 1 1 0.125 1000 2) = Raise e
        /\ e = ValueError).
Proof.
  split.
  - destruct (bad_parameters_fail (mk_params 0 500 0.125 1000 2))
      as [e [Hb [_ [Hz _]]]].
    + left. reflexivity.
    + exists e. split; [exact Hb | apply Hz; reflexivity].
  - destruct (bad_parameters_fail (mk_params 1 1 0.125 1000 2))
      as [e [Hb [_ [_ [Hv _]]]]].
    + right. simpl. lia.
    + exists e. split; [exact Hb | apply Hv; simpl; lra].
Defined.

(** C6, as the specification words it, fails on the notebook's own
    parameters with [h] replaced by [0]: the run stops with
    [ZeroDivisionError], which is not [InvalidParameters]. *)
Lemma zero_h_is_not_InvalidParameters :
  p_h (mk_params 0 500 0.125 1000 2) = 0
  /\ build (mk_params 0 500 0.125 1000 2) = Raise ZeroDivisionError
  /\ build (mk_params 0 500 0.125 1000 2) <> Raise InvalidParameters.
Proof.
  assert (Hb : build (mk_params 0 500 0.125 1000 2) = Raise ZeroDivisionError).
  { unfold build. cbn [p_a p_th p_h]. rewrite g_zero. reflexivity. }
  split; [reflexivity |]. split; [exact Hb |].
  rewrite Hb. discriminate.
Qed.

(** ** The colour scale of the animation *)

Lemma fold_left_Rmin_le (l : list R) (x : R) :
  fold_left Rmin l x <= x
  /\ Forall (fun y => fold_left Rmin l x <= y) l
  /\ In (fold_left Rmin l x) (x :: l).
Proof.
  revert x. induction l as [| y l IH]; intros x; cbn [fold_left].
  - split; [lra |]. split; [constructor | left; reflexivity].
  - destruct (IH (Rmin x y)) as [H1 [H2 H3]].
    pose proof (Rmin_l x y). pose proof (Rmin_r x y).
    split; [lra |]. split.
    + constructor; [lra | exact H2].
    + destruct H3 as [H3 | H3]; [| right; right; exact H3].
      rewrite <- H3. unfold Rmin. destruct (Rle_dec x y).
      * left. reflexivity.
      * right. left. reflexivity.
Qed.

Lemma fold_left_Rmax_ge (l : list R) (x : R) :
  x <= fold_left Rmax l x
  /\ Forall (fun y => y <= fold_left Rmax l x) l
  /\ In (fold_left Rmax l x) (x :: l).
Proof.
  revert x. induction l as [| y l IH]; intros x; cbn [fold_left].
  - split; [lra |]. split; [constructor | left; reflexivity].
  - destruct (IH (Rmax x y)) as [H1 [H2 H3]].
    pose proof (Rmax_l x y). pose proof (Rmax_r x y).
    split; [lra |]. split.
    + constructor; [lra | exact H2].
    + destruct H3 as [H3 | H3]; [| right; right; exact H3].
      rewrite <- H3. unfold Rmax. destruct (Rle_dec x y).
      * right. left. reflexivity.
      * left. reflexivity.
Qed.

Lemma map_result_animate (Zs : list (list (list R))) (nm : Normalize)
  (k : nat) :
  (4 * k <= length Zs + 3)%nat ->
  exists draws,
    map_result (animate Zs nm) (seq 0 k) = Ok draws
    /\ length draws = k
    /\ Forall (fun d => dr_norm d = nm) draws.
Proof.
  intros Hk.
  assert (Hgen : forall m s, (4 * (s + m) <= length Zs + 3)%nat ->
            exists draws,
              map_result (animate Zs nm) (seq s m) = Ok draws
              /\ length draws = m
              /\ Forall (fun d => dr_norm d = nm) draws).
  { induction m as [| m IH]; intros s Hs.
    - exists []. repeat split. constructor.
    - cbn [seq map_result]. unfold animate at 1.
      destruct (nth_error Zs (s * 4)) as [img |] eqn:E.
      + destruct (IH (S s)) as [draws [Hd [Hl Hf]]]; [lia |].
        rewrite Hd. cbn [bind].
        eexists. split; [reflexivity |]. split; [simpl; lia |].
        constructor; [reflexivity | exact Hf].
      + apply nth_error_None in E. lia. }
  apply (Hgen k 0%nat). exact Hk.
Qed.

(** C8.  The colour scale is computed once, from the minimum and the
    maximum of the initial condition, and every frame of the animation is
    drawn with that same scale. *)
Theorem fixed_normalization (t : Z) (initial : list (list R))
  (Zs : list (list (list R))) :
  flatten initial <> [] -> length Zs = Z.to_nat t ->
  exists lo hi draws,
    np_min initial = Ok lo
    /\ np_max initial = Ok hi
    /\ Forall (fun y => lo <= y <= hi) (flatten initial)
    /\ In lo (flatten initial) /\ In hi (flatten initial)
    /\ animation t initial Zs = Ok draws
    /\ length draws = Z.to_nat ((t - 1) / 4)
    /\ Forall (fun d => dr_norm d = mk_Normalize lo hi) draws.
Proof.
  intros Hne HZs. unfold animation, norm, np_min, np_max.
  destruct (flatten initial) as [| x xs] eqn:E; [contradiction |].
  destruct (fold_left_Rmin_le xs x) as [Hm1 [Hm2 Hm3]].
  destruct (fold_left_Rmax_ge xs x) as [HM1 [HM2 HM3]].
  destruct (map_result_animate Zs
              (mk_Normalize (fold_left Rmin xs x) (fold_left Rmax xs x))
              (Z.to_nat ((t - 1) / 4))) as [draws [Hd [Hl Hf]]].
  { rewrite HZs.
    destruct (Z.le_gt_cases 1 t) as [Ht | Ht].
    - pose proof (Z.mul_div_le (t - 1) 4 ltac:(lia)). lia.
    - assert ((t - 1) / 4 < 0)%Z by (apply Z.div_lt_upper_bound; lia).
      lia. }
  exists (fold_left Rmin xs x), (fold_left Rmax xs x), draws.
  cbn [bind]. repeat split; try assumption; try reflexivity.
  apply Forall_forall. intros y Hy.
  rewrite Forall_forall in Hm2, HM2.
  destruct Hy as [<- | Hy]; [lra |].
  specialize (Hm2 y Hy). specialize (HM2 y Hy). lra.
Qed.

Lemma fixed_normalization_witness :
  exists lo hi draws,
    np_min [[0; 50]; [50; 0]] = Ok lo
    /\ np_max [[0; 50]; [50; 0]] = Ok hi
    /\ animation 5 [[0; 50]; [50; 0]]
         [ [[0; 50]; [50; 0]]; [[7; 7]; [20; 5]]; [[7; 7]; [12; 9]];
           [[7; 7]; [10; 9]]; [[7; 7]; [9; 9]] ] = Ok draws
    /\ Forall (fun d => dr_norm d = mk_Normalize lo hi) draws.
Proof.
  destruct (fixed_normalization 5 [[0; 50]; [50; 0]]
              [ [[0; 50]; [50; 0]]; [[7; 7]; [20; 5]]; [[7; 7]; [12; 9]];
                [[7; 7]; [10; 9]]; [[7; 7]; [9; 9]] ])
    as [lo [hi [draws [H1 [H2 [_ [_ [_ [H3 [_ H4]]]]]]]]]].
  - discriminate.
  - reflexivity.
  - exists lo, hi, draws. repeat split; assumption.
Defined.

(** ** Finite sums *)

Lemma sum_upto_ext (f f' : nat -> R) (m : nat) :
  (forall i, (i < m)%nat -> f i = f' i) -> sum_upto f m = sum_upto f' m.
Proof.
  induction m as [| m IH]; intros H; cbn [sum_upto]; [reflexivity |].
  rewrite IH by (intros i Hi; apply H; lia).
  rewrite H by lia. reflexivity.
Qed.

Lemma sum_upto_plus (f f' : nat -> R) (m : nat) :
  sum_upto (fun i => f i + f' i) m = sum_upto f m + sum_upto f' m.
Proof.
  induction m as [| m IH]; cbn [sum_upto]; [lra | rewrite IH; lra].
Qed.

Lemma sum_upto_scal (c : R) (f : nat -> R) (m : nat) :
  sum_upto (fun i => c * f i) m = c * sum_upto f m.
Proof.
  induction m as [| m IH]; cbn [sum_upto]; [lra | rewrite IH; lra].
Qed.

Lemma sum_upto_zero (m : nat) : sum_upto (fun _ => 0) m = 0.
Proof.
  induction m as [| m IH]; cbn [sum_upto]; [lra | rewrite IH; lra].
Qed.


Lemma sum_upto_le (f f' : nat -> R) (m : nat) :
  (forall i, (i < m)%nat -> f i <= f' i) -> sum_upto f m <= sum_upto f' m.
Proof.
  induction m as [| m IH]; intros H; cbn [sum_upto]; [lra |].
  assert (sum_upto f m <= sum_upto f' m) by (apply IH; intros; apply H; lia).
  assert (f m <= f' m) by (apply H; lia). lra.
Qed.

Lemma sum_upto_nonneg (f : nat -> R) (m : nat) :
  (forall i, (i < m)%nat -> 0 <= f i) -> 0 <= sum_upto f m.
Proof.
  intros H. rewrite <- (sum_upto_zero m). apply sum_upto_le. exact H.
Qed.

Lemma sum_upto_swap (f : nat -> nat -> R) (m k : nat) :
  sum_upto (fun i => sum_upto (fun j => f i j) k) m
  = sum_upto (fun j => sum_upto (fun i => f i j) m) k.
Proof.
  induction m as [| m IH]; cbn [sum_upto].
  - symmetry. apply sum_upto_zero.
  - rewrite IH, <- sum_upto_plus. reflexivity.
Qed.

(** A sum with a single non-zero term. *)
Lemma sum_upto_single (f : nat -> R) (k m : nat) :
  sum_upto (fun j => if (j =? k)%nat then f j else 0) m
  = if (k <? m)%nat then f k else 0.
Proof.
  induction m as [| m IH]; cbn [sum_upto]; [reflexivity |].
  rewrite IH.
  destruct (Nat.ltb_spec k m), (Nat.ltb_spec k (S m)),
    (Nat.eqb_spec m k); try lia; subst; lra.
Qed.

(** ** The product as a sum over the columns *)

Lemma diag_term_dense (cols : nat) (x d : list R) (off : Z) (i : nat) :
  sum_upto (fun j => diag_entry d off i j * nth j x 0) cols
  = diag_term cols x i d off.
Proof.
  unfold diag_term, diag_entry.
  destruct (Z.leb_spec 0 (Z.of_nat i + off)) as [Hlo | Hlo]; cbn [andb].
  - rewrite (sum_upto_ext _
      (fun j => if (j =? Z.to_nat (Z.of_nat i + off))%nat
                then nth j d 0 * nth j x 0 else 0)).
    + rewrite sum_upto_single.
      destruct (Nat.ltb_spec (Z.to_nat (Z.of_nat i + off)) cols),
        (Z.ltb_spec (Z.of_nat i + off) (Z.of_nat cols));
        try lia; reflexivity.
    + intros j _.
      destruct (Z.eqb_spec (Z.of_nat j - Z.of_nat i) off),
        (Nat.eqb_spec j (Z.to_nat (Z.of_nat i + off))); try lia; lra.
  - rewrite (sum_upto_ext _ (fun _ => 0)); [apply sum_upto_zero |].
    intros j _.
    destruct (Z.eqb_spec (Z.of_nat j - Z.of_nat i) off); [lia | lra].
Qed.

Lemma sum_diags_dense (cols : nat) (x : list R) (i : nat)
  (ds : list (list R)) :
  forall os,
    sum_diags (diag_term cols x i) ds os
    = sum_upto
        (fun j => sum_diags (fun d off => diag_entry d off i j) ds os
                  * nth j x 0) cols.
Proof.
  induction ds as [| d ds IH]; intros os.
  - cbn [sum_diags].
    rewrite (sum_upto_ext _ (fun _ => 0)) by (intros; lra).
    symmetry. apply sum_upto_zero.
  - destruct os as [| o os].
    + cbn [sum_diags].
      rewrite (sum_upto_ext _ (fun _ => 0)) by (intros; lra).
      symmetry. apply sum_upto_zero.
    + cbn [sum_diags]. rewrite IH, <- diag_term_dense, <- sum_upto_plus.
      apply sum_upto_ext. intros j _. lra.
Qed.

(** Row [i] of the banded product is the dense sum over the columns. *)
Lemma dot_row_dense (M : dia) (x : list R) (i : nat) :
  (i < dia_rows M)%nat ->
  dot_row M x i = sum_upto (fun j => entry M i j * nth j x 0) (dia_cols M).
Proof.
  intros Hi. unfold dot_row. rewrite sum_diags_dense.
  apply sum_upto_ext. intros j Hj. unfold entry.
  destruct (Nat.ltb_spec i (dia_rows M)); [| lia].
  destruct (Nat.ltb_spec j (dia_cols M)); [| lia].
  reflexivity.
Qed.

Lemma nth_dot (M : dia) (x : list R) (i : nat) :
  (i < dia_rows M)%nat -> nth i (dot M x) 0 = dot_row M x i.
Proof.
  intros Hi. unfold dot.
  rewrite (nth_indep _ 0 (dot_row M x 0))
    by (rewrite length_map, length_seq; exact Hi).
  rewrite (map_nth (dot_row M x)). rewrite seq_nth by exact Hi.
  reflexivity.
Qed.

(** ** Uniform states *)

Lemma stencil_uniform (n : nat) (gam c : R) (i : nat) :
  (2 <= n)%nat -> (i < n * n)%nat ->
  stencil n gam (repeat c (n * n)) i = c.
Proof.
  intros Hn Hi. unfold stencil, center_coefficient, neighbours.
  rewrite (nth_repeat_lt c 0 (n * n) i) by exact Hi.
  destruct (has_right n i) eqn:Er.
  - apply has_right_next_cell in Er; [| assumption | assumption].
    rewrite (nth_repeat_lt c 0 (n * n) (i + 1)) by exact Er.
    destruct (has_down n i) eqn:Ed.
    + unfold has_down in Ed. apply Nat.ltb_lt in Ed.
      rewrite (nth_repeat_lt c 0 (n * n) (i + n)) by exact Ed.
      rewrite (nth_repeat_lt c 0 (n * n) (i - 1)) by lia.
      rewrite (nth_repeat_lt c 0 (n * n) (i - n)) by lia.
      destruct (has_up n i), (has_left n i); simpl; lra.
    + rewrite (nth_repeat_lt c 0 (n * n) (i - 1)) by lia.
      rewrite (nth_repeat_lt c 0 (n * n) (i - n)) by lia.
      destruct (has_up n i), (has_left n i); simpl; lra.
  - destruct (has_down n i) eqn:Ed.
    + unfold has_down in Ed. apply Nat.ltb_lt in Ed.
      rewrite (nth_repeat_lt c 0 (n * n) (i + n)) by exact Ed.
      rewrite (nth_repeat_lt c 0 (n * n) (i - 1)) by lia.
      rewrite (nth_repeat_lt c 0 (n * n) (i - n)) by lia.
      destruct (has_up n i), (has_left n i); simpl; lra.
    + rewrite (nth_repeat_lt c 0 (n * n) (i - 1)) by lia.
      rewrite (nth_repeat_lt c 0 (n * n) (i - n)) by lia.
      destruct (has_up n i), (has_left n i); simpl; lra.
Qed.

Lemma map_seq_const {T : Type} (f : nat -> T) (c : T) (m : nat) :
  forall s, (forall i, (s <= i < s + m)%nat -> f i = c) ->
            map f (seq s m) = repeat c m.
Proof.
  induction m as [| m IH]; intros s H; [reflexivity |].
  cbn [seq map repeat]. rewrite H by lia. f_equal.
  apply IH. intros i Hi. apply H. lia.
Qed.

(** C9, in exact arithmetic.  With the scalars taken as real numbers, for
    every [n >= 2], every value of [g] and every constant [c]: applied to
    the uniform state whose [n^2] entries all equal [c], the operator
    returns the same uniform state, and every row of the operator sums to
    exactly [1]. *)
Theorem uniform_state_fixed (n : nat) (gam c : R) :
  (2 <= n)%nat ->
  exists M,
    A (Z.of_nat n) gam = Ok M
    /\ dot M (repeat c (n * n)) = repeat c (n * n)
    /\ forall i, (i < n * n)%nat -> sum_upto (entry M i) (n * n) = 1.
Proof.
  intros Hge. exists (operator n gam).
  split; [apply A_built; exact Hge |].
  split.
  - unfold dot. cbn [operator dia_rows].
    apply map_seq_const. intros i Hi.
    rewrite dot_row_stencil by lia.
    apply stencil_uniform; lia.
  - intros i Hi.
    rewrite <- (stencil_uniform n gam 1 i Hge Hi).
    rewrite <- dot_row_stencil by assumption.
    rewrite dot_row_dense by exact Hi. cbn [operator dia_cols].
    apply sum_upto_ext. intros j Hj.
    rewrite nth_repeat_lt by exact Hj. lra.
Qed.

Lemma uniform_state_fixed_witness :
  exists M,
    A 4 0.1 = Ok M
    /\ dot M (repeat 7 16) = repeat 7 16
    /\ sum_upto (entry M 5) 16 = 1.
Proof.
  destruct (uniform_state_fixed 4 0.1 7) as [M [HM [Hd Hs]]].
  - lia.
  - exists M. repeat split; try assumption.
    apply (Hs 5%nat). simpl. lia.
Defined.

(** ** The concrete scenario, first step *)

Example scenario_first_step :
  step (operator 4 0.1) 4 5 (flatten scenario_initial)
  = [5; 5; 5; 5;  1; 8; 8; 1;  1; 8; 8; 1;  0; 1; 1; 0].
Proof.
  unfold step.
  rewrite (fill_prefix_split _ 4) by (rewrite length_dot; simpl; lia).
  unfold dot. cbn [operator dia_rows Nat.mul Nat.add seq map repeat].
  rewrite !dot_row_stencil by (simpl; lia).
  cbn [skipn app].
  unfold stencil, center_coefficient, neighbours, has_up, has_down, has_left,
    has_right, scenario_initial, flatten.
  simpl.
  repeat (f_equal; try lra).
Qed.

(** ** Magnitudes *)

Lemma max_abs_nonneg (v : list R) : 0 <= max_abs v.
Proof.
  induction v as [| y v IH]; cbn [max_abs fold_right]; [lra |].
  fold (max_abs v). pose proof (Rmax_r (Rabs y) (max_abs v)). lra.
Qed.

Lemma nth_le_max_abs (v : list R) (j : nat) : Rabs (nth j v 0) <= max_abs v.
Proof.
  revert j. induction v as [| y v IH]; intros j.
  - destruct j; cbn [nth max_abs fold_right]; rewrite Rabs_R0; lra.
  - cbn [max_abs fold_right]. fold (max_abs v).
    destruct j as [| j]; cbn [nth].
    + apply Rmax_l.
    + pose proof (IH j). pose proof (Rmax_r (Rabs y) (max_abs v)). lra.
Qed.


(** If some entry exceeds [B] in absolute value, so does the maximum. *)
Lemma max_abs_gt (v : list R) (B : R) (j : nat) :
  B < Rabs (nth j v 0) -> B < max_abs v.
Proof. intros H. pose proof (nth_le_max_abs v j). lra. Qed.

(** ** Stable time steps: [0 <= g <= 1/4] *)







(** ** Inner products *)


Lemma inner_nonneg (m : nat) (x : list R) : 0 <= inner m x x.
Proof. unfold inner. apply sum_upto_nonneg. intros i _. nra. Qed.

Lemma sum_upto_scal_r (c : R) (f : nat -> R) (m : nat) :
  sum_upto (fun i => f i * c) m = sum_upto f m * c.
Proof.
  induction m as [| m IH]; cbn [sum_upto]; [lra | rewrite IH; lra].
Qed.

(** The operator is self-adjoint for the inner product. *)
Lemma inner_dot_sym (n : nat) (gam : R) (x y : list R) :
  (2 <= n)%nat ->
  inner (n * n) (dot (operator n gam) x) y
  = inner (n * n) x (dot (operator n gam) y).
Proof.
  intros Hn. unfold inner.
  rewrite (sum_upto_ext _
    (fun i => sum_upto
       (fun j => entry (operator n gam) i j * nth j x 0 * nth i y 0)
       (n * n))).
  2:{ intros i Hi. rewrite nth_dot by exact Hi.
      rewrite dot_row_dense by exact Hi. cbn [operator dia_cols].
      rewrite <- sum_upto_scal_r. reflexivity. }
  rewrite sum_upto_swap.
  apply sum_upto_ext. intros j Hj.
  rewrite nth_dot by exact Hj.
  rewrite dot_row_dense by exact Hj. cbn [operator dia_cols].
  rewrite <- sum_upto_scal. apply sum_upto_ext. intros i Hi.
  rewrite (entry_operator_sym n gam i j) by assumption. lra.
Qed.




(** ** Steps with a zero boundary value *)





(** ** Growth of the squared norm *)

Section Growth.

(** A positive sequence with [s (k+1)^2 <= s k * s (k+2)] whose first ratio
    is at least [q] keeps growing by the factor [q]. *)
Variable s : nat -> R.
Variable q : R.
Hypothesis q_pos : 0 < q.
Hypothesis s0_pos : 0 < s 0%nat.
Hypothesis first_ratio : q * s 0%nat <= s 1%nat.
Hypothesis log_convex : forall k, s (S k) * s (S k) <= s k * s (S (S k)).



End Growth.


(** ** The checkerboard input *)

Lemma length_flatten_grid (f : nat -> nat -> R) (n k : nat) :
  forall s,
    length (concat (map (fun r => map (f r) (seq 0 n)) (seq s k)))
    = (k * n)%nat.
Proof.
  induction k as [| k IH]; intros s; [reflexivity |].
  cbn [seq map concat]. rewrite length_app, length_map, length_seq, IH.
  lia.
Qed.

Lemma nth_flatten_grid (f : nat -> nat -> R) (n k : nat) :
  forall s i,
    (i < k * n)%nat ->
    nth i (concat (map (fun r => map (f r) (seq 0 n)) (seq s k))) 0
    = f (s + i / n)%nat (i mod n).
Proof.
  induction k as [| k IH]; intros s i Hi; [lia |].
  assert (Hn : n <> 0%nat) by lia.
  cbn [seq map concat].
  destruct (Nat.lt_ge_cases i n) as [Hlt | Hge].
  - rewrite app_nth1 by (rewrite length_map, length_seq; exact Hlt).
    rewrite (nth_indep _ 0 (f s 0%nat))
      by (rewrite length_map, length_seq; exact Hlt).
    rewrite (map_nth (f s)), seq_nth by exact Hlt.
    rewrite Nat.div_small, Nat.mod_small by exact Hlt.
    rewrite Nat.add_0_r. reflexivity.
  - rewrite app_nth2 by (rewrite length_map, length_seq; exact Hge).
    rewrite length_map, length_seq.
    rewrite IH by lia.
    replace (i - n)%nat with (i - 1 * n)%nat by lia.
    rewrite mod_sub_multiple by lia.
    f_equal.
    replace i with ((i - 1 * n) + 1 * n)%nat at 2 by lia.
    rewrite Nat.div_add by exact Hn. lia.
Qed.















(** ** The checkerboard against its image *)


(** ** Counting cells *)






(** ** The Rayleigh quotient of the checkerboard *)






(** ** Unstable time steps: [g > 1/4] *)




(** ** The stability condition *)



(** ** The smallest grid stays bounded up to [g = 1/2] *)







(** ** A growing mode on the smallest grid *)

Example two_by_two_mode (x : R) :
  step (operator 2 1) 2 0 [0; 0; x; - x] = [0; 0; -2 * x; 2 * x].
Proof.
  unfold step.
  rewrite (fill_prefix_split _ 2) by (rewrite length_dot; simpl; lia).
  unfold dot. cbn [operator dia_rows Nat.mul Nat.add seq map repeat].
  rewrite !dot_row_stencil by (simpl; lia).
  cbn [skipn app].
  unfold stencil, center_coefficient, neighbours, has_up, has_down, has_left,
    has_right.
  simpl.
  repeat (f_equal; try lra).
Qed.

(** ** The notebook's own run *)

Lemma initial_cell_grid (n : nat) :
  (1 <= n)%nat ->
  exists init,
    initial_cell (Z.of_nat n) = Ok init
    /\ length (flatten init) = (n * n)%nat.
Proof.
  intros Hn. unfold initial_cell.
  destruct (Z.leb_spec (Z.of_nat n) 0) as [? | _]; [lia |].
  eexists. split; [reflexivity |].
  rewrite Nat2Z.id. unfold flatten.
  apply (length_flatten_grid
           (fun r c => if in_block (Z.of_nat n) r && in_block (Z.of_nat n) c
                       then 50 else 0)).
Qed.

(** With valid parameters the notebook is [solve] on its own initial
    condition and boundary value. *)
Lemma notebook_is_solve (p : params) (n : nat) :
  p_h p <> 0 -> p_n p = Z.of_nat n -> (2 <= n)%nat ->
  exists init,
    initial_cell (p_n p) = Ok init
    /\ length (flatten init) = (n * n)%nat
    /\ notebook p = solve p notebook_boundary init.
Proof.
  intros Hh Hn Hge.
  destruct (initial_cell_grid n ltac:(lia)) as [init [Hinit Hlen]].
  exists init. rewrite Hn. split; [exact Hinit |]. split; [exact Hlen |].
  unfold notebook, solve, build. rewrite g_ok by exact Hh.
  cbn [bind]. rewrite Hn, Hinit. reflexivity.
Qed.

(** * Further properties of the cells *)

(** ** Flattening and reshaping *)

Lemma firstn_plus {T : Type} (a b : nat) :
  forall l : list T, firstn (a + b) l = firstn a l ++ firstn b (skipn a l).
Proof.
  induction a as [| a IH]; intros l; [reflexivity |].
  destruct l as [| x l]; cbn [Nat.add firstn skipn app].
  - rewrite firstn_nil. reflexivity.
  - rewrite IH. reflexivity.
Qed.

Lemma concat_chunks (n : nat) (v : list R) (k : nat) :
  concat (map (fun r => firstn n (skipn (r * n) v)) (seq 0 k))
  = firstn (k * n) v.
Proof.
  induction k as [| k IH]; [reflexivity |].
  rewrite seq_S, map_app, concat_app, IH. cbn [Nat.add map concat].
  rewrite app_nil_r.
  replace (S k * n)%nat with (k * n + n)%nat by lia.
  rewrite firstn_plus. reflexivity.
Qed.

Lemma skipn_concat_rows (n : nat) (grid : list (list R)) :
  Forall (fun row => length row = n) grid ->
  forall r, skipn (r * n) (concat grid) = concat (skipn r grid).
Proof.
  induction 1 as [| row grid Hrow Hrest IH]; intros r.
  - cbn [concat]. rewrite !skipn_nil. reflexivity.
  - destruct r as [| r]; [reflexivity |].
    cbn [concat skipn]. rewrite <- IH.
    replace (S r * n)%nat with (length row + r * n)%nat by lia.
    rewrite skipn_app, Nat.add_comm, Nat.add_sub.
    rewrite skipn_all2 by lia. reflexivity.
Qed.

Lemma map_nth_seq (l : list (list R)) (f : nat -> list R) :
  (forall r, (r < length l)%nat -> f r = nth r l []) ->
  map f (seq 0 (length l)) = l.
Proof.
  intros H. apply (nth_ext _ _ [] []).
  - rewrite length_map, length_seq. reflexivity.
  - intros r Hr. rewrite length_map, length_seq in Hr.
    rewrite (nth_indep _ [] (f 0%nat))
      by (rewrite length_map, length_seq; exact Hr).
    rewrite (map_nth f), seq_nth by exact Hr. apply H. exact Hr.
Qed.

Lemma skipn_cons_nth (l : list (list R)) (r : nat) :
  (r < length l)%nat -> skipn r l = nth r l [] :: skipn (S r) l.
Proof.
  revert r. induction l as [| x l IH]; intros r Hr; [simpl in Hr; lia |].
  destruct r as [| r]; [reflexivity |].
  cbn [skipn nth]. apply IH. simpl in Hr. lia.
Qed.

(** X1.  Reshaping and flattening are inverse to each other on arrays of
    the right size: a frame of [n * n] values cut into [n] rows flattens
    back to itself, and a grid of [n] rows of [n] values is recovered by
    reshaping its flattening. *)
Theorem reshape_flatten_roundtrip (n : nat) (v : list R)
  (grid : list (list R)) :
  length v = (n * n)%nat ->
  length grid = n -> Forall (fun row => length row = n) grid ->
  flatten (reshape_frame n v) = v
  /\ reshape_frame n (flatten grid) = grid.
Proof.
  intros Hv Hg Hrows. split.
  - unfold flatten, reshape_frame. rewrite concat_chunks.
    apply firstn_all2. lia.
  - unfold reshape_frame, flatten. clear Hv. subst n.
    apply (map_nth_seq grid
             (fun r => firstn (length grid)
                         (skipn (r * length grid) (concat grid)))).
    intros r Hr.
    rewrite (skipn_concat_rows (length grid) grid Hrows).
    rewrite (skipn_cons_nth grid r Hr). cbn [concat].
    assert (Hlen : length (nth r grid []) = length grid).
    { rewrite Forall_forall in Hrows. apply Hrows. apply nth_In. exact Hr. }
    rewrite <- Hlen at 1.
    rewrite firstn_app, Nat.sub_diag, firstn_all. cbn [firstn].
    apply app_nil_r.
Qed.

Lemma reshape_flatten_roundtrip_witness :
  flatten (reshape_frame 2 [1; 2; 3; 4]) = [1; 2; 3; 4]
  /\ reshape_frame 2 (flatten [[1; 2]; [3; 4]]) = [[1; 2]; [3; 4]].
Proof.
  apply (reshape_flatten_roundtrip 2 [1; 2; 3; 4] [[1; 2]; [3; 4]]).
  - reflexivity.
  - reflexivity.
  - repeat constructor.
Defined.

(** ** The initial-condition cell *)

Lemma nth_grid_rows (f : nat -> nat -> R) (n r c : nat) :
  (r < n)%nat -> (c < n)%nat ->
  nth c (nth r (map (fun r => map (f r) (seq 0 n)) (seq 0 n)) []) 0 = f r c.
Proof.
  intros Hr Hc.
  rewrite (nth_indep _ [] (map (f 0%nat) (seq 0 n)))
    by (rewrite length_map, length_seq; exact Hr).
  rewrite (map_nth (fun r => map (f r) (seq 0 n))), seq_nth by exact Hr.
  cbn [Nat.add].
  rewrite (nth_indep _ 0 (f r 0%nat))
    by (rewrite length_map, length_seq; exact Hc).
  rewrite (map_nth (f r)), seq_nth by exact Hc. reflexivity.
Qed.


(** ** Edge cases of the solution cell *)

(** X3.  The solution cell needs at least one time step: a negative [t]
    makes [np.zeros] raise [ValueError], and [t = 0] makes the assignment to
    [Z[0]] raise [IndexError], whatever the operator and the initial
    condition. *)
Theorem time_series_needs_a_step (M : dia) (n t : Z) (bc : R)
  (initial : list (list R)) :
  (t <= 0)%Z ->
  time_series M n t bc initial
  = Raise (if (t <? 0)%Z then ValueError else IndexError).
Proof.
  intros Ht. unfold time_series, np_zeros.
  destruct (Z.ltb_spec t 0) as [Hneg | Hzero]; [reflexivity |].
  destruct (Z.ltb_spec (n ^ 2) 0) as [Hsq | _]; [nia |].
  replace t with 0%Z by lia. reflexivity.
Qed.

Lemma time_series_needs_a_step_witness :
  time_series (operator 4 0.1) 4 0 scenario_boundary scenario_initial
  = Raise IndexError
  /\ time_series (operator 4 0.1) 4 (-3) scenario_boundary scenario_initial
     = Raise ValueError.
Proof.
  split.
  - apply (time_series_needs_a_step (operator 4 0.1) 4 0). lia.
  - apply (time_series_needs_a_step (operator 4 0.1) 4 (-3)). lia.
Defined.

(** X4.  The initial condition must fill a frame: when it has neither
    [n * n] values nor a single one, the assignment to [Z[0]] raises
    [ValueError]. *)
Theorem initial_shape_is_checked (M : dia) (n : nat) (t : Z) (bc : R)
  (initial : list (list R)) :
  (1 <= t)%Z ->
  length (flatten initial) <> (n * n)%nat ->
  length (flatten initial) <> 1%nat ->
  time_series M (Z.of_nat n) t bc initial = Raise ValueError.
Proof.
  intros Ht Hlen Hone. unfold time_series, np_zeros.
  destruct (Z.ltb_spec t 0) as [? | _]; [lia |].
  destruct (Z.ltb_spec (Z.of_nat n ^ 2) 0) as [? | _]; [nia |].
  cbn [orb bind].
  replace (Z.to_nat (Z.of_nat n ^ 2)) with (n * n)%nat by nia.
  replace (Z.to_nat t) with (S (Z.to_nat t - 1)) by lia.
  unfold set_row. cbn [repeat nth_error]. rewrite repeat_length.
  destruct (Nat.eqb_spec (length (flatten initial)) (n * n)) as [E | _];
    [contradiction |].
  destruct (flatten initial) as [| c [| c' rest]]; try reflexivity.
  simpl in Hone. lia.
Qed.

Lemma initial_shape_is_checked_witness :
  time_series (operator 4 0.1) 4 3 scenario_boundary [[1; 2]; [3; 4]]
  = Raise ValueError.
Proof.
  apply (initial_shape_is_checked (operator 4 0.1) 4 3 scenario_boundary
           [[1; 2]; [3; 4]]).
  - lia.
  - simpl. lia.
  - simpl. lia.
Defined.

Lemma time_series_broadcast (M : dia) (n : nat) (t : Z) (bc c : R)
  (initial : list (list R)) :
  (2 <= n)%nat -> (1 <= t)%Z -> dia_rows M = (n * n)%nat ->
  flatten initial = [c] ->
  time_series M (Z.of_nat n) t bc initial
  = Ok (repeat c (n * n)
        :: frames_after (step M (Z.of_nat n) bc) (repeat c (n * n))
             (Z.to_nat t - 1)).
Proof.
  intros Hn Ht Hrows Hflat. unfold time_series, np_zeros.
  destruct (Z.ltb_spec t 0) as [? | _]; [lia |].
  destruct (Z.ltb_spec (Z.of_nat n ^ 2) 0) as [? | _]; [nia |].
  cbn [orb bind].
  replace (Z.to_nat (Z.of_nat n ^ 2)) with (n * n)%nat by nia.
  replace (Z.to_nat t) with (S (Z.to_nat t - 1)) at 1 by lia.
  unfold set_row. cbn [repeat nth_error].
  rewrite Hflat, repeat_length. cbn [length].
  destruct (Nat.eqb_spec 1 (n * n)) as [E | _]; [nia |].
  cbn [bind list_set]. unfold range_from_1.
  pose proof (for_range_appends M (Z.of_nat n) bc (Z.to_nat t - 1) []
                (repeat c (n * n))) as H.
  cbn [app length] in H. rewrite Hrows in H. exact H.
Qed.

Lemma flatten_uniform (c : R) (n k : nat) :
  flatten (repeat (repeat c n) k) = repeat c (k * n).
Proof.
  unfold flatten. induction k as [| k IH]; [reflexivity |].
  cbn [repeat concat Nat.mul]. rewrite IH, repeat_app. reflexivity.
Qed.

(** X5.  An initial condition of a single value is broadcast over the whole
    first frame: the run is the one of the uniform [n] by [n] grid of that
    value. *)
Theorem single_value_is_broadcast (M : dia) (n : nat) (t : Z) (bc c : R) :
  (2 <= n)%nat -> (1 <= t)%Z -> dia_rows M = (n * n)%nat ->
  time_series M (Z.of_nat n) t bc [[c]]
  = time_series M (Z.of_nat n) t bc (repeat (repeat c n) n).
Proof.
  intros Hn Ht Hrows.
  rewrite (time_series_broadcast M n t bc c [[c]]) by auto.
  assert (Hflat : flatten (repeat (repeat c n) n) = repeat c (n * n))
    by apply flatten_uniform.
  rewrite time_series_frames
    by (try assumption; rewrite Hflat; apply repeat_length).
  rewrite Hflat. reflexivity.
Qed.

Lemma single_value_is_broadcast_witness :
  time_series (operator 2 0.1) 2 3 5 [[7]]
  = time_series (operator 2 0.1) 2 3 5 [[7; 7]; [7; 7]].
Proof.
  apply (single_value_is_broadcast (operator 2 0.1) 2 3 5 7).
  - lia.
  - lia.
  - reflexivity.
Defined.

Lemma firstn_frames_after (f : list R -> list R) (m m' : nat) :
  (m <= m')%nat ->
  forall x, firstn m (frames_after f x m') = frames_after f x m.
Proof.
  revert m'. induction m as [| m IH]; intros m' Hm x; [reflexivity |].
  destruct m' as [| m']; [lia |].
  cbn [frames_after firstn]. rewrite IH by lia. reflexivity.
Qed.

(** X6.  Computing more steps does not change the frames already computed:
    the time series for [t] steps is the first [t] frames of the time series
    for any [t' >= t] steps. *)
Theorem more_steps_extend_the_series (M : dia) (n : nat) (t t' : Z)
  (bc : R) (initial : list (list R)) :
  (1 <= t)%Z -> (t <= t')%Z -> dia_rows M = (n * n)%nat ->
  length (flatten initial) = (n * n)%nat ->
  exists Zs Zs',
    time_series M (Z.of_nat n) t bc initial = Ok Zs
    /\ time_series M (Z.of_nat n) t' bc initial = Ok Zs'
    /\ Zs = firstn (Z.to_nat t) Zs'.
Proof.
  intros Ht Htt Hrows Hlen.
  rewrite !time_series_frames by (try assumption; lia).
  eexists. eexists. split; [reflexivity |]. split; [reflexivity |].
  replace (Z.to_nat t) with (S (Z.to_nat t - 1)) at 2 by lia.
  cbn [firstn]. rewrite firstn_frames_after by lia. reflexivity.
Qed.

Lemma more_steps_extend_the_series_witness :
  exists Zs Zs',
    time_series (operator 4 0.1) 4 2 scenario_boundary scenario_initial
    = Ok Zs
    /\ time_series (operator 4 0.1) 4 5 scenario_boundary scenario_initial
       = Ok Zs'
    /\ Zs = firstn 2 Zs'.
Proof.
  apply (more_steps_extend_the_series (operator 4 0.1) 4 2 5
           scenario_boundary scenario_initial).
  - lia.
  - lia.
  - reflexivity.
  - reflexivity.
Defined.

(** ** The field at the boundary temperature *)

Lemma dot_uniform (n : nat) (gam c : R) :
  (2 <= n)%nat ->
  dot (operator n gam) (repeat c (n * n)) = repeat c (n * n).
Proof.
  intros Hn. unfold dot. cbn [operator dia_rows].
  apply map_seq_const. intros i Hi.
  rewrite dot_row_stencil by lia.
  apply stencil_uniform; lia.
Qed.

Lemma fill_prefix_repeat (n m : nat) (c : R) :
  (n <= m)%nat -> fill_prefix (repeat c m) (Z.of_nat n) c = repeat c m.
Proof.
  intros Hn. apply (nth_ext _ _ 0 0).
  - rewrite length_fill_prefix. reflexivity.
  - intros j Hj. rewrite length_fill_prefix, repeat_length in Hj.
    destruct (Nat.lt_ge_cases j n) as [Hlt | Hge].
    + rewrite nth_fill_prefix_lt by (try rewrite repeat_length; assumption).
      symmetry. apply nth_repeat_lt. exact Hj.
    + rewrite nth_fill_prefix_ge by (try rewrite repeat_length; assumption).
      reflexivity.
Qed.

Lemma frames_after_fixed (f : list R -> list R) (x : list R) (m : nat) :
  f x = x -> frames_after f x m = repeat x m.
Proof.
  intros Hfix. induction m as [| m IH]; [reflexivity |].
  cbn [frames_after repeat]. rewrite Hfix, IH. reflexivity.
Qed.

(** X7.  In exact arithmetic, a field that is uniformly at the boundary
    temperature is a steady state, whatever the value of [g]: every frame of
    the run equals the initial one.  (In binary64 the rows of the operator
    sum to 1 only up to rounding.) *)
Theorem boundary_temperature_is_steady (p : params) (n : nat) (bc : R)
  (initial : list (list R)) :
  p_h p <> 0 -> p_n p = Z.of_nat n -> (2 <= n)%nat -> (1 <= p_t p)%Z ->
  flatten initial = repeat bc (n * n) ->
  exists M,
    build p = Ok M
    /\ time_series M (p_n p) (p_t p) bc initial
       = Ok (repeat (repeat bc (n * n)) (Z.to_nat (p_t p))).
Proof.
  intros Hh Hn Hge Ht Hflat. exists (operator n (gamma p)).
  split; [apply build_ok; assumption |].
  rewrite Hn.
  rewrite time_series_frames
    by (try assumption; try reflexivity; rewrite Hflat; apply repeat_length).
  rewrite Hflat, frames_after_fixed.
  - replace (Z.to_nat (p_t p)) with (S (Z.to_nat (p_t p) - 1)) at 2 by lia.
    reflexivity.
  - unfold step. rewrite dot_uniform by exact Hge.
    apply fill_prefix_repeat. nia.
Qed.

Lemma boundary_temperature_is_steady_witness :
  exists M,
    build scenario_params = Ok M
    /\ time_series M 4 3 5 (repeat (repeat 5 4) 4)
       = Ok (repeat (repeat 5 16) 3).
Proof.
  apply (boundary_temperature_is_steady scenario_params 4 5
           (repeat (repeat 5 4) 4)).
  - simpl. lra.
  - reflexivity.
  - lia.
  - simpl. lia.
  - reflexivity.
Defined.

(** ** The banded product *)


(** X9.  Without the boundary overwrite the operator conserves the total
    heat: the entries of [A.dot(x)] have the same sum as the entries of
    [x]. *)
Theorem operator_conserves_heat (p : params) (n : nat) (x : list R) :
  p_h p <> 0 -> p_n p = Z.of_nat n -> (2 <= n)%nat ->
  exists M,
    build p = Ok M
    /\ sum_upto (fun i => nth i (dot M x) 0) (n * n)
       = sum_upto (fun i => nth i x 0) (n * n).
Proof.
  intros Hh Hn Hge. exists (operator n (gamma p)).
  split; [apply build_ok; assumption |].
  assert (Hone : forall y,
            sum_upto (fun i => nth i y 0) (n * n)
            = inner (n * n) y (repeat 1 (n * n))).
  { intros y. unfold inner. apply sum_upto_ext. intros i Hi.
    rewrite nth_repeat_lt by exact Hi. lra. }
  rewrite !Hone. rewrite inner_dot_sym by exact Hge.
  rewrite dot_uniform by exact Hge. reflexivity.
Qed.

Lemma operator_conserves_heat_witness :
  exists M,
    build scenario_params = Ok M
    /\ sum_upto (fun i => nth i (dot M (flatten scenario_initial)) 0) 16
       = sum_upto (fun i => nth i (flatten scenario_initial) 0) 16.
Proof.
  apply (operator_conserves_heat scenario_params 4
           (flatten scenario_initial)).
  - simpl. lra.
  - reflexivity.
  - lia.
Defined.

(** ** The maximum principle *)

Lemma stencil_between (n : nat) (gam lo hi : R) (x : list R) (i : nat) :
  (2 <= n)%nat -> (i < n * n)%nat -> 0 <= gam <= 1 / 4 ->
  (forall j, (j < n * n)%nat -> lo <= nth j x 0 <= hi) ->
  lo <= stencil n gam x i <= hi.
Proof.
  intros Hn Hi Hg Hx. unfold stencil, center_coefficient, neighbours.
  pose proof (Hx i Hi) as H0.
  assert (H1 : has_right n i = true -> lo <= nth (i + 1) x 0 <= hi).
  { intros Hr. apply Hx. apply has_right_next_cell; assumption. }
  assert (H2 : lo <= nth (i - 1) x 0 <= hi) by (apply Hx; lia).
  assert (H3 : has_down n i = true -> lo <= nth (i + n) x 0 <= hi).
  { intros Hd. apply Hx. unfold has_down in Hd.
    apply Nat.ltb_lt in Hd. exact Hd. }
  assert (H4 : lo <= nth (i - n) x 0 <= hi) by (apply Hx; lia).
  set (x0 := nth i x 0) in *. set (x1 := nth (i + 1) x 0) in *.
  set (x2 := nth (i - 1) x 0) in *. set (x3 := nth (i + n) x 0) in *.
  set (x4 := nth (i - n) x 0) in *.
  assert (P1 : has_right n i = true ->
               0 <= gam * (hi - x1) /\ 0 <= gam * (x1 - lo)).
  { intros Hr. specialize (H1 Hr). split; apply Rmult_le_pos; lra. }
  assert (P2 : 0 <= gam * (hi - x2) /\ 0 <= gam * (x2 - lo))
    by (split; apply Rmult_le_pos; lra).
  assert (P3 : has_down n i = true ->
               0 <= gam * (hi - x3) /\ 0 <= gam * (x3 - lo)).
  { intros Hd. specialize (H3 Hd). split; apply Rmult_le_pos; lra. }
  assert (P4 : 0 <= gam * (hi - x4) /\ 0 <= gam * (x4 - lo))
    by (split; apply Rmult_le_pos; lra).
  assert (P0 : forall k, 0 <= k <= 4 ->
            0 <= (1 - k * gam) * (hi - x0) /\ 0 <= (1 - k * gam) * (x0 - lo)).
  { intros k Hk. assert (0 <= 1 - k * gam) by nra.
    split; apply Rmult_le_pos; lra. }
  destruct (has_right n i); [destruct (P1 eq_refl) | clear P1];
    (destruct (has_down n i); [destruct (P3 eq_refl) | clear P3]);
    destruct (has_up n i), (has_left n i);
    simpl INR;
    match goal with
    | |- context [(- ?k * gam + 1) * x0] =>
        destruct (P0 k ltac:(lra)) as [Pa Pb]
    end; lra.
Qed.

Lemma step_between (n : nat) (gam bc lo hi : R) (x : list R) :
  (2 <= n)%nat -> 0 <= gam <= 1 / 4 -> lo <= bc <= hi ->
  (forall j, (j < n * n)%nat -> lo <= nth j x 0 <= hi) ->
  forall j, (j < n * n)%nat ->
    lo <= nth j (step (operator n gam) (Z.of_nat n) bc x) 0 <= hi.
Proof.
  intros Hn Hg Hbc Hx j Hj. unfold step.
  assert (Hlen : (n <= length (dot (operator n gam) x))%nat)
    by (rewrite length_dot; cbn [operator dia_rows]; nia).
  destruct (Nat.lt_ge_cases j n) as [Hlt | Hge].
  - rewrite nth_fill_prefix_lt by assumption. exact Hbc.
  - rewrite nth_fill_prefix_ge by assumption.
    rewrite nth_dot by exact Hj.
    rewrite dot_row_stencil by assumption.
    apply stencil_between; assumption.
Qed.

Lemma frame_at_between (n : nat) (gam bc lo hi : R) (x : list R) (k : nat) :
  (2 <= n)%nat -> 0 <= gam <= 1 / 4 -> lo <= bc <= hi ->
  (forall j, (j < n * n)%nat -> lo <= nth j x 0 <= hi) ->
  forall j, (j < n * n)%nat ->
    lo <= nth j (frame_at (step (operator n gam) (Z.of_nat n) bc) x k) 0
    <= hi.
Proof.
  intros Hn Hg Hbc Hx. induction k as [| k IH]; [exact Hx |].
  cbn [frame_at]. apply step_between; assumption.
Qed.

(** X10.  Maximum principle.  When [0 <= g <= 1/4], if the initial
    condition and the boundary value lie between [lo] and [hi], so does
    every value of every frame: the scheme creates no new extremum. *)
Theorem maximum_principle (p : params) (n : nat) (bc lo hi : R)
  (initial : list (list R)) :
  p_h p <> 0 -> p_n p = Z.of_nat n -> (2 <= n)%nat -> (1 <= p_t p)%Z ->
  length (flatten initial) = (n * n)%nat ->
  0 <= gamma p <= 1 / 4 ->
  Forall (fun y => lo <= y <= hi) (flatten initial) ->
  lo <= bc <= hi ->
  exists M Zs,
    build p = Ok M
    /\ time_series M (p_n p) (p_t p) bc initial = Ok Zs
    /\ forall k, (Z.of_nat k < p_t p)%Z ->
         Forall (fun y => lo <= y <= hi) (nth k Zs []).
Proof.
  intros Hh Hn Hge Ht Hlen Hg Hinit Hbc.
  exists (operator n (gamma p)).
  exists (flatten initial
          :: frames_after (step (operator n (gamma p)) (p_n p) bc)
               (flatten initial) (Z.to_nat (p_t p) - 1)).
  split; [apply build_ok; assumption |].
  split; [rewrite Hn; apply time_series_frames; auto |].
  intros k Hk. rewrite nth_series by lia. rewrite Hn.
  apply Forall_forall. intros y Hy.
  apply (In_nth _ _ 0) in Hy as [j [Hj <-]].
  rewrite length_frame_at in Hj
    by (rewrite Hlen; reflexivity).
  cbn [operator dia_rows] in Hj.
  apply frame_at_between; try assumption.
  intros j' Hj'. rewrite Forall_forall in Hinit. apply Hinit.
  apply nth_In. rewrite Hlen. exact Hj'.
Qed.

Lemma maximum_principle_witness :
  exists M Zs,
    build scenario_params = Ok M
    /\ time_series M 4 3 scenario_boundary scenario_initial = Ok Zs
    /\ Forall (fun y => 0 <= y <= 10) (nth 2 Zs []).
Proof.
  destruct (maximum_principle scenario_params 4 scenario_boundary 0 10
              scenario_initial) as [M [Zs [HM [HZ Hb]]]].
  - simpl. lra.
  - reflexivity.
  - lia.
  - simpl. lia.
  - reflexivity.
  - unfold gamma. simpl. lra.
  - unfold scenario_initial, flatten. simpl.
    repeat (apply Forall_cons; [lra |]). apply Forall_nil.
  - unfold scenario_boundary. lra.
  - exists M, Zs. repeat split; try assumption.
    apply (Hb 2%nat). simpl. lia.
Defined.

(** ** When the operator cell succeeds *)

Lemma build_raises (p : params) :
  p_h p = 0 \/ (p_n p < 2)%Z -> exists e, build p = Raise e.
Proof.
  intros H. unfold build.
  destruct (Req_dec_T (p_h p) 0) as [Hz | Hnz].
  - exists ZeroDivisionError. rewrite Hz, g_zero. reflexivity.
  - destruct H as [Hz | Hn]; [contradiction |].
    exists ValueError. rewrite g_ok by exact Hnz. cbn [bind]. unfold A.
    rewrite data_small_raises by exact Hn. reflexivity.
Qed.

(** X11.  Whatever value the parameter cell has left in [g], the operator
    cell succeeds exactly when [n >= 2].  The operator then has shape [n^2]
    by [n^2] and five stored diagonals of [n^2] values each, at the offsets
    [n, 1, 0, -1, -n]. *)
Theorem operator_cell_succeeds_iff (n : Z) (gam : R) :
  ((exists M, A n gam = Ok M) <-> (2 <= n)%Z)
  /\ (forall M, A n gam = Ok M ->
        dia_rows M = Z.to_nat (n ^ 2)
        /\ dia_cols M = Z.to_nat (n ^ 2)
        /\ dia_offsets M = [n; 1; 0; - 1; - n]%Z
        /\ length (dia_data M) = 5%nat
        /\ Forall (fun d => length d = Z.to_nat (n ^ 2)) (dia_data M)).
Proof.
  assert (Hok : (2 <= n)%Z -> A n gam = Ok (operator (Z.to_nat n) gam)).
  { intros Hn. rewrite <- (A_built (Z.to_nat n) gam) by lia.
    rewrite Z2Nat.id by lia. reflexivity. }
  assert (Hnec : forall M, A n gam = Ok M -> (2 <= n)%Z).
  { intros M HM.
    destruct (Z.lt_ge_cases n 2) as [Hlt | Hge]; [| exact Hge].
    unfold A in HM. rewrite data_small_raises in HM by exact Hlt.
    discriminate HM. }
  split.
  - split.
    + intros [M HM]. exact (Hnec M HM).
    + intros Hn. eexists. apply Hok. exact Hn.
  - intros M HM. pose proof (Hnec M HM) as Hn.
    rewrite (Hok Hn) in HM. injection HM as <-.
    set (m := Z.to_nat n).
    assert (Hm2 : (2 <= m)%nat) by (unfold m; lia).
    assert (Hsq : Z.to_nat (n ^ 2) = (m * m)%nat) by (unfold m; nia).
    rewrite Hsq. cbn [operator dia_rows dia_cols dia_offsets dia_data].
    repeat split.
    + unfold offsets, m. rewrite Z2Nat.id by lia. reflexivity.
    + repeat (apply Forall_cons;
              [first [ apply repeat_length
                     | apply length_row_right; exact Hm2
                     | apply length_row_center; exact Hm2
                     | apply length_row_left; exact Hm2 ] |]).
      apply Forall_nil.
Qed.

(** ** The frames the animation draws *)

Lemma map_result_animate_frames (Zs : list (list (list R)))
  (nm : Normalize) (m : nat) :
  forall s, (4 * (s + m) <= length Zs + 3)%nat ->
    map_result (animate Zs nm) (seq s m)
    = Ok (map (fun k => mk_drawing (k * 4) (nth (k * 4) Zs []) "turbo" nm)
            (seq s m)).
Proof.
  induction m as [| m IH]; intros s Hs; [reflexivity |].
  cbn [seq map_result map]. unfold animate at 1.
  destruct (nth_error Zs (s * 4)) as [img |] eqn:E.
  - rewrite IH by lia. cbn [bind].
    rewrite (nth_error_nth _ _ [] E). reflexivity.
  - apply nth_error_None in E. lia.
Qed.

(** X12.  The animation draws [(t-1) // 4] pictures: picture [k] shows
    frame [4 k] under the title [4 k], with the colour map [turbo] and the
    one colour scale of the plot cell.  The frames whose index is no
    multiple of four are never drawn, and neither are the last four
    frames. *)
Theorem animation_draws_every_fourth_frame (t : Z)
  (initial : list (list R)) (Zs : list (list (list R))) :
  flatten initial <> [] -> length Zs = Z.to_nat t ->
  exists nm draws,
    norm initial = Ok nm
    /\ animation t initial Zs = Ok draws
    /\ length draws = Z.to_nat ((t - 1) / 4)
    /\ forall k, (k < length draws)%nat ->
         nth_error draws k
         = Some (mk_drawing (k * 4) (nth (k * 4) Zs []) "turbo" nm)
         /\ (k * 4 + 5 <= Z.to_nat t)%nat.
Proof.
  intros Hne HZs. unfold animation, norm, np_min, np_max.
  destruct (flatten initial) as [| x xs] eqn:E; [contradiction |].
  cbn [bind].
  assert (Hdiv : (4 * ((t - 1) / 4) <= t - 1)%Z)
    by (apply Z.mul_div_le; lia).
  assert (Hbound : (4 * (0 + Z.to_nat ((t - 1) / 4)) <= length Zs + 3)%nat).
  { rewrite HZs. destruct (Z.le_gt_cases 1 t) as [Ht | Ht]; [lia |].
    assert ((t - 1) / 4 < 0)%Z by (apply Z.div_lt_upper_bound; lia).
    lia. }
  rewrite (map_result_animate_frames Zs _ _ 0%nat Hbound).
  eexists. eexists. split; [reflexivity |]. split; [reflexivity |].
  split; [rewrite length_map, length_seq; reflexivity |].
  intros k Hk. rewrite length_map, length_seq in Hk. split.
  - rewrite nth_error_map, nth_error_seq.
    destruct (Nat.ltb_spec k (Z.to_nat ((t - 1) / 4))); [| lia].
    reflexivity.
  - lia.
Qed.

Lemma animation_draws_every_fourth_frame_witness :
  exists nm draws,
    norm [[0; 50]; [50; 0]] = Ok nm
    /\ animation 9 [[0; 50]; [50; 0]]
         [ [[1]]; [[2]]; [[3]]; [[4]]; [[5]]; [[6]]; [[7]]; [[8]]; [[9]] ]
       = Ok draws
    /\ length draws = 2%nat
    /\ nth_error draws 1 = Some (mk_drawing 4 [[5]] "turbo" nm).
Proof.
  destruct (animation_draws_every_fourth_frame 9 [[0; 50]; [50; 0]]
              [ [[1]]; [[2]]; [[3]]; [[4]]; [[5]]; [[6]]; [[7]]; [[8]];
                [[9]] ])
    as [nm [draws [Hn [Ha [Hl Hk]]]]].
  - discriminate.
  - reflexivity.
  - exists nm, draws. repeat split; try assumption.
    apply (Hk 1%nat). rewrite Hl. simpl. lia.
Defined.

(** ** The notebook run top to bottom *)

Lemma time_series_no_step (M : dia) (n t : Z) (bc : R)
  (initial : list (list R)) :
  (t <= 0)%Z ->
  time_series M n t bc initial
  = Raise (if (t <? 0)%Z then ValueError else IndexError).
Proof.
  intros Ht. unfold time_series, np_zeros.
  destruct (Z.ltb_spec t 0) as [Hneg | Hzero]; [reflexivity |].
  destruct (Z.ltb_spec (n ^ 2) 0) as [Hsq | _]; [nia |].
  replace t with 0%Z by lia. reflexivity.
Qed.

Lemma solve_frames (p : params) (n : nat) (bc : R)
  (initial : list (list R)) :
  p_h p <> 0 -> p_n p = Z.of_nat n -> (2 <= n)%nat -> (1 <= p_t p)%Z ->
  length (flatten initial) = (n * n)%nat ->
  solve p bc initial
  = Ok (map (reshape_frame n)
          (flatten initial
           :: frames_after (step (operator n (gamma p)) (Z.of_nat n) bc)
                (flatten initial) (Z.to_nat (p_t p) - 1))).
Proof.
  intros Hh Hn Hge Ht Hlen. unfold solve.
  rewrite (build_ok p n) by assumption. cbn [bind].
  rewrite Hn. rewrite time_series_frames by (auto; reflexivity).
  cbn [bind]. unfold reshape. rewrite Nat2Z.id. reflexivity.
Qed.

(** X13.  What the cells up to and including the solution cell give, by the
    parameters (the plot cell is not part of [notebook]).  [notebook] is the
    parameter cell followed by [later_cells], and [h = 0] stops the
    parameter cell with [ZeroDivisionError].  Whatever value [gam] the
    parameter cell has left in [g], the later cells behave as follows:
    [n <= 0] stops the initial-condition cell with [IndexError] and [n = 1]
    the operator cell with [ValueError]; with [n >= 2] a negative [t] stops
    the solution cell with [ValueError] and [t = 0] with [IndexError], and
    [t >= 1] gives [t] frames. *)
Theorem notebook_outcome (p : params) :
  notebook p = (gam <- g (p_a p) (p_th p) (p_h p) ;;
                later_cells gam (p_n p) (p_t p))
  /\ (p_h p = 0 -> notebook p = Raise ZeroDivisionError)
  /\ (forall gam n t,
      ((n <= 0)%Z -> later_cells gam n t = Raise IndexError)
      /\ (n = 1%Z -> later_cells gam n t = Raise ValueError)
      /\ ((2 <= n)%Z -> (t < 0)%Z -> later_cells gam n t = Raise ValueError)
      /\ ((2 <= n)%Z -> t = 0%Z -> later_cells gam n t = Raise IndexError)
      /\ ((2 <= n)%Z -> (1 <= t)%Z ->
          exists out,
            later_cells gam n t = Ok out /\ length out = Z.to_nat t)).
Proof.
  split; [reflexivity |].
  split.
  { intros Hz. unfold notebook. rewrite Hz, g_zero. reflexivity. }
  intros gam n t.
  assert (Hrun : (2 <= n)%Z ->
            exists (m : nat) init,
              (2 <= m)%nat
              /\ length (flatten init) = (m * m)%nat
              /\ later_cells gam n t
                 = (Zs <- time_series (operator m gam) (Z.of_nat m)
                            t notebook_boundary init ;;
                    Ok (reshape (Z.of_nat m) Zs))).
  { intros Hn.
    destruct (initial_cell_grid (Z.to_nat n) ltac:(lia))
      as [init [Hinit Hlen]].
    exists (Z.to_nat n), init.
    split; [lia |]. split; [exact Hlen |].
    unfold later_cells.
    replace n with (Z.of_nat (Z.to_nat n)) by lia.
    rewrite Nat2Z.id, Hinit. cbn [bind].
    rewrite A_built by lia. reflexivity. }
  repeat split.
  - intros Hn. unfold later_cells, initial_cell.
    destruct (Z.leb_spec n 0); [reflexivity | lia].
  - intros Hn. subst n. unfold later_cells, initial_cell.
    cbn [Z.leb Z.compare bind].
    unfold A. rewrite data_small_raises by lia. reflexivity.
  - intros Hn Ht. destruct (Hrun Hn) as [m [init [_ [_ ->]]]].
    rewrite time_series_no_step by lia.
    destruct (Z.ltb_spec t 0); [reflexivity | lia].
  - intros Hn Ht. destruct (Hrun Hn) as [m [init [_ [_ ->]]]].
    rewrite time_series_no_step by lia.
    destruct (Z.ltb_spec t 0); [lia | reflexivity].
  - intros Hn Ht. destruct (Hrun Hn) as [m [init [Hm2 [Hlen ->]]]].
    rewrite time_series_frames by (auto; lia).
    cbn [bind]. eexists. split; [reflexivity |].
    unfold reshape. rewrite length_map. cbn [length].
    rewrite length_frames_after. lia.
Qed.

(** ** The notebook's colour scale *)

Lemma div_mod_grid (n r c : nat) :
  (c < n)%nat -> ((r * n + c) / n = r /\ (r * n + c) mod n = c)%nat.
Proof.
  intros Hc. split.
  - rewrite Nat.div_add_l by lia. rewrite Nat.div_small by exact Hc. lia.
  - replace (r * n + c)%nat with (c + r * n)%nat by lia.
    rewrite Nat.Div0.mod_add. apply Nat.mod_small. exact Hc.
Qed.

Lemma nth_initial_cell (n : nat) (init : list (list R)) (r c : nat) :
  initial_cell (Z.of_nat n) = Ok init -> (r < n)%nat -> (c < n)%nat ->
  nth (r * n + c) (flatten init) 0
  = if in_block (Z.of_nat n) r && in_block (Z.of_nat n) c then 50 else 0.
Proof.
  intros Hinit Hr Hc. unfold initial_cell in Hinit.
  destruct (Z.leb_spec (Z.of_nat n) 0); [discriminate |].
  injection Hinit as <-. rewrite Nat2Z.id. unfold flatten.
  rewrite (nth_flatten_grid
             (fun r c => if in_block (Z.of_nat n) r
                            && in_block (Z.of_nat n) c then 50 else 0))
    by nia.
  destruct (div_mod_grid n r c Hc) as [-> ->]. reflexivity.
Qed.

Lemma initial_cell_values (n : nat) (init : list (list R)) :
  initial_cell (Z.of_nat n) = Ok init ->
  Forall (fun y => y = 0 \/ y = 50) (flatten init).
Proof.
  intros Hinit. unfold initial_cell in Hinit.
  destruct (Z.leb_spec (Z.of_nat n) 0); [discriminate |].
  injection Hinit as <-. unfold flatten.
  apply Forall_forall. intros y Hy.
  apply in_concat in Hy as [row [Hrow Hy]].
  apply in_map_iff in Hrow as [r [<- _]].
  apply in_map_iff in Hy as [c [<- _]].
  destruct (in_block (Z.of_nat n) r && in_block (Z.of_nat n) c); auto.
Qed.

Lemma initial_cell_scale (n : nat) :
  (2 <= n)%nat ->
  exists init,
    initial_cell (Z.of_nat n) = Ok init
    /\ np_min init = Ok 0
    /\ np_max init = Ok 50
    /\ norm init = Ok (mk_Normalize 0 50).
Proof.
  intros Hn.
  destruct (initial_cell_grid n ltac:(lia)) as [init [Hinit Hlen]].
  exists init. split; [exact Hinit |].
  pose proof (initial_cell_values n init Hinit) as Hvals.
  rewrite Forall_forall in Hvals.
  assert (Hzero : In 0 (flatten init)).
  { assert (E : nth ((n - 1) * n + (n - 1)) (flatten init) 0 = 0).
    { rewrite (nth_initial_cell n init) by (try assumption; lia).
      unfold in_block.
      destruct (Z.ltb_spec (Z.of_nat (n - 1)) (2 * Z.of_nat n / 3))
        as [Hlt | _]; [| rewrite !andb_false_r; reflexivity].
      exfalso.
      assert (2 * Z.of_nat n / 3 <= Z.of_nat n - 1)%Z; [| lia].
      apply Z.lt_succ_r. apply Z.div_lt_upper_bound; lia. }
    rewrite <- E. apply nth_In. rewrite Hlen. nia. }
  assert (Hfifty : In 50 (flatten init)).
  { set (r := Z.to_nat (Z.of_nat n / 3)).
    assert (Hr3 : (0 <= Z.of_nat n / 3)%Z) by (apply Z.div_pos; lia).
    assert (Hlo : (Z.of_nat n / 3 < 2 * Z.of_nat n / 3)%Z).
    { assert (Z.of_nat n / 3 + 1 <= 2 * Z.of_nat n / 3)%Z; [| lia].
      apply Z.div_le_lower_bound; [lia |].
      pose proof (Z.mul_div_le (Z.of_nat n) 3 ltac:(lia)). lia. }
    assert (Hup : (2 * Z.of_nat n / 3 < Z.of_nat n)%Z)
      by (apply Z.div_lt_upper_bound; lia).
    assert (Hr : (r < n)%nat) by (unfold r; lia).
    assert (E : nth (r * n + r) (flatten init) 0 = 50).
    { rewrite (nth_initial_cell n init) by assumption.
      unfold in_block.
      replace (Z.of_nat r) with (Z.of_nat n / 3)%Z by (unfold r; lia).
      destruct (Z.leb_spec (Z.of_nat n / 3) (Z.of_nat n / 3)); [| lia].
      destruct (Z.ltb_spec (Z.of_nat n / 3) (2 * Z.of_nat n / 3)); [| lia].
      reflexivity. }
    rewrite <- E. apply nth_In. rewrite Hlen. nia. }
  assert (Hmin : np_min init = Ok 0).
  { unfold np_min. destruct (flatten init) as [| x xs] eqn:E;
      [destruct Hzero |].
    destruct (fold_left_Rmin_le xs x) as [H1 [H2 H3]].
    f_equal. rewrite Forall_forall in H2.
    assert (Hle : fold_left Rmin xs x <= 0).
    { destruct Hzero as [<- | Hin]; [exact H1 | apply H2; exact Hin]. }
    destruct (Hvals _ H3) as [-> | E50]; [reflexivity | lra]. }
  assert (Hmax : np_max init = Ok 50).
  { unfold np_max. destruct (flatten init) as [| x xs] eqn:E;
      [destruct Hzero |].
    destruct (fold_left_Rmax_ge xs x) as [H1 [H2 H3]].
    f_equal. rewrite Forall_forall in H2.
    assert (Hge : 50 <= fold_left Rmax xs x).
    { destruct Hfifty as [<- | Hin]; [exact H1 | apply H2; exact Hin]. }
    destruct (Hvals _ H3) as [E0 | ->]; [lra | reflexivity]. }
  split; [exact Hmin |]. split; [exact Hmax |].
  unfold norm. rewrite Hmin, Hmax. reflexivity.
Qed.

(** X14.  For [n >= 2] the initial condition of the notebook takes both
    values [0] and [50] and no other, so the colour scale of the plot cell
    is exactly [Normalize(0, 50)]. *)
Theorem notebook_colour_scale (n : nat) :
  (2 <= n)%nat ->
  exists init,
    initial_cell (Z.of_nat n) = Ok init
    /\ np_min init = Ok 0
    /\ np_max init = Ok 50
    /\ norm init = Ok (mk_Normalize 0 50).
Proof. exact (initial_cell_scale n). Qed.

Lemma notebook_colour_scale_witness :
  exists init,
    initial_cell 6 = Ok init
    /\ norm init = Ok (mk_Normalize 0 50).
Proof.
  destruct (notebook_colour_scale 6) as [init [Hi [_ [_ Hn]]]].
  - lia.
  - exists init. split; assumption.
Defined.

Lemma In_reshape_frame (n : nat) (v row : list R) (y : R) :
  In row (reshape_frame n v) -> In y row -> In y v.
Proof.
  intros Hrow Hy. unfold reshape_frame in Hrow.
  apply in_map_iff in Hrow as [r [<- _]].
  rewrite <- (firstn_skipn (r * n) v). apply in_or_app. right.
  rewrite <- (firstn_skipn n (skipn (r * n) v)). apply in_or_app. left.
  exact Hy.
Qed.

(** X15.  With [0 <= g <= 1/4] no value of the notebook's run leaves its
    colour scale: for [n >= 2] and [t >= 1] every value of every frame lies
    between the [vmin] and the [vmax] of the plot cell's [norm]. *)
Theorem notebook_stays_in_colour_scale (p : params) (n : nat) :
  p_h p <> 0 -> p_n p = Z.of_nat n -> (2 <= n)%nat -> (1 <= p_t p)%Z ->
  0 <= gamma p <= 1 / 4 ->
  exists init nm out,
    initial_cell (p_n p) = Ok init
    /\ norm init = Ok nm
    /\ notebook p = Ok out
    /\ Forall (fun frame =>
                 Forall (fun row =>
                           Forall (fun y => vmin nm <= y <= vmax nm) row)
                   frame) out.
Proof.
  intros Hh Hn Hge Ht Hg.
  destruct (notebook_is_solve p n Hh Hn Hge) as [init [Hinit [Hlen Hnb]]].
  assert (Hscale : norm init = Ok (mk_Normalize 0 50)).
  { destruct (initial_cell_scale n Hge) as [init' [Hinit' [_ [_ Hnorm]]]].
    rewrite Hn in Hinit. congruence. }
  exists init, (mk_Normalize 0 50).
  eexists. split; [exact Hinit |]. split; [exact Hscale |].
  rewrite Hnb. rewrite (solve_frames p n) by assumption.
  split; [reflexivity |].
  cbn [vmin vmax]. apply Forall_forall. intros frame Hframe.
  apply in_map_iff in Hframe as [v [<- Hv]].
  apply Forall_forall. intros row Hrow.
  apply Forall_forall. intros y Hy.
  pose proof (In_reshape_frame n v row y Hrow Hy) as Hin.
  apply (In_nth _ _ []) in Hv as [k [Hk <-]].
  cbn [length] in Hk. rewrite length_frames_after in Hk.
  rewrite nth_series in Hin by lia.
  apply (In_nth _ _ 0) in Hin as [j [Hj <-]].
  rewrite length_frame_at in Hj by (rewrite Hlen; reflexivity).
  cbn [operator dia_rows] in Hj.
  apply frame_at_between; try assumption.
  - unfold notebook_boundary. lra.
  - intros j' Hj'.
    pose proof (initial_cell_values n init) as Hvals.
    rewrite Hn in Hinit. specialize (Hvals Hinit).
    rewrite Forall_forall in Hvals.
    destruct (Hvals (nth j' (flatten init) 0)) as [-> | ->]; try lra.
    apply nth_In. rewrite Hlen. exact Hj'.
Qed.

Lemma notebook_stays_in_colour_scale_witness :
  exists init nm out,
    initial_cell 4 = Ok init
    /\ norm init = Ok nm
    /\ notebook scenario_params = Ok out
    /\ Forall (fun frame =>
                 Forall (fun row =>
                           Forall (fun y => vmin nm <= y <= vmax nm) row)
                   frame) out.
Proof.
  apply (notebook_stays_in_colour_scale scenario_params 4).
  - simpl. lra.
  - reflexivity.
  - lia.
  - simpl. lia.
  - unfold gamma. simpl. lra.
Defined.

(** ** The heated row *)

Lemma first_row_of_frame (n : nat) (v : list R) :
  (1 <= n)%nat -> nth 0 (reshape_frame n v) [] = firstn n v.
Proof.
  intros Hn. unfold reshape_frame.
  destruct n as [| n]; [lia |]. reflexivity.
Qed.

(** X16.  In the notebook's own run the heated top row appears only from
    frame 1 on: for [n >= 3] the first grid row of frame 0 is all zero, as
    the initial condition has it, while the first grid row of every later
    frame is at the boundary value [50]. *)
Theorem heated_row_appears_at_frame_one (p : params) (n : nat) :
  p_h p <> 0 -> p_n p = Z.of_nat n -> (3 <= n)%nat -> (1 <= p_t p)%Z ->
  exists out,
    notebook p = Ok out
    /\ nth 0 (nth 0 out []) [] = repeat 0 n
    /\ forall k, (1 <= k)%nat -> (Z.of_nat k < p_t p)%Z ->
         nth 0 (nth k out []) [] = repeat notebook_boundary n.
Proof.
  intros Hh Hn Hge Ht.
  destruct (notebook_is_solve p n Hh Hn ltac:(lia))
    as [init [Hinit [Hlen Hnb]]].
  rewrite Hnb. rewrite (solve_frames p n) by (try assumption; lia).
  eexists. split; [reflexivity |].
  set (f := step (operator n (gamma p)) (Z.of_nat n) notebook_boundary).
  set (Zs := flatten init :: frames_after f (flatten init)
                               (Z.to_nat (p_t p) - 1)).
  assert (HZs : length Zs = Z.to_nat (p_t p)).
  { unfold Zs. cbn [length]. rewrite length_frames_after. lia. }
  assert (Hnth : forall k, (k < Z.to_nat (p_t p))%nat ->
            nth 0 (nth k (map (reshape_frame n) Zs) []) []
            = firstn n (frame_at f (flatten init) k)).
  { intros k Hk.
    rewrite (nth_indep _ [] (reshape_frame n []))
      by (rewrite length_map; lia).
    rewrite (map_nth (reshape_frame n)).
    rewrite first_row_of_frame by lia.
    unfold Zs. rewrite nth_series by lia. reflexivity. }
  split.
  - rewrite Hnth by lia. cbn [frame_at].
    apply (nth_ext _ _ 0 0).
    + rewrite length_firstn, repeat_length, Hlen. nia.
    + intros j Hj. rewrite length_firstn, Hlen in Hj.
      assert (Hjn : (j < n)%nat) by nia.
      rewrite nth_firstn.
      destruct (Nat.ltb_spec j n); [| lia].
      rewrite nth_repeat_lt by exact Hjn.
      rewrite Hn in Hinit.
      pose proof (nth_initial_cell n init 0 j Hinit ltac:(lia) Hjn) as E.
      cbn [Nat.mul Nat.add] in E. rewrite E.
      unfold in_block at 1.
      destruct (Z.leb_spec (Z.of_nat n / 3) (Z.of_nat 0)) as [Hle | _];
        [| reflexivity].
      exfalso.
      assert (1 <= Z.of_nat n / 3)%Z by (apply Z.div_le_lower_bound; lia).
      lia.
  - intros k Hk Hkt. rewrite Hnth by lia.
    replace k with (S (k - 1)) by lia. cbn [frame_at]. unfold f at 1, step.
    rewrite fill_prefix_split
      by (rewrite length_dot; cbn [operator dia_rows]; nia).
    rewrite firstn_app, repeat_length, Nat.sub_diag.
    rewrite firstn_all2 by (rewrite repeat_length; lia).
    cbn [firstn]. apply app_nil_r.
Qed.

Lemma heated_row_appears_at_frame_one_witness :
  exists out,
    notebook scenario_params = Ok out
    /\ nth 0 (nth 0 out []) [] = [0; 0; 0; 0]
    /\ nth 0 (nth 2 out []) [] = [50; 50; 50; 50].
Proof.
  destruct (heated_row_appears_at_frame_one scenario_params 4)
    as [out [Ho [H0 Hk]]].
  - simpl. lra.
  - reflexivity.
  - lia.
  - simpl. lia.
  - exists out. split; [exact Ho |]. split; [exact H0 |].
    apply (Hk 2%nat); simpl; lia.
Defined.

(** ** The initial-condition cell, statement by statement *)

Lemma slice_bound_le (len : nat) (k : Z) : (slice_bound len k <= len)%nat.
Proof. unfold slice_bound. destruct (k <? 0)%Z; lia. Qed.

Lemma slice_bound_inside (len : nat) (k : Z) :
  (0 <= k <= Z.of_nat len)%Z -> slice_bound len k = Z.to_nat k.
Proof.
  intros Hk. unfold slice_bound.
  destruct (Z.ltb_spec k 0); lia.
Qed.

Lemma length_update_range {T : Type} (f : T -> T) (l : list T)
  (lo hi : nat) :
  (hi <= length l)%nat -> length (update_range f l lo hi) = length l.
Proof.
  intros Hhi. unfold update_range.
  destruct (Nat.ltb_spec lo hi); [| reflexivity].
  rewrite !length_app, length_map, !length_firstn, !length_skipn. lia.
Qed.

Lemma nth_update_range {T : Type} (f : T -> T) (l : list T)
  (lo hi j : nat) (d : T) :
  (hi <= length l)%nat -> (j < length l)%nat ->
  nth j (update_range f l lo hi) d
  = if ((lo <=? j) && (j <? hi))%nat then f (nth j l d) else nth j l d.
Proof.
  intros Hhi Hj. unfold update_range.
  destruct (Nat.ltb_spec lo hi) as [Hlt | Hge].
  2:{ destruct (Nat.leb_spec lo j), (Nat.ltb_spec j hi);
        try reflexivity; lia. }
  destruct (Nat.leb_spec lo j) as [Hlo | Hlo]; cbn [andb].
  - rewrite app_nth2 by (rewrite length_firstn; lia).
    rewrite length_firstn, Nat.min_l by lia.
    destruct (Nat.ltb_spec j hi) as [Hin | Hout].
    + rewrite app_nth1
        by (rewrite length_map, length_firstn, length_skipn; lia).
      rewrite (nth_indep _ d (f d))
        by (rewrite length_map, length_firstn, length_skipn; lia).
      rewrite (map_nth f). f_equal.
      rewrite nth_firstn.
      destruct (Nat.ltb_spec (j - lo) (hi - lo)); [| lia].
      rewrite nth_skipn. f_equal. lia.
    + rewrite app_nth2
        by (rewrite length_map, length_firstn, length_skipn; lia).
      rewrite length_map, length_firstn, length_skipn.
      rewrite nth_skipn. f_equal. lia.
  - rewrite app_nth1 by (rewrite length_firstn; lia).
    rewrite nth_firstn. destruct (Nat.ltb_spec j lo); [reflexivity | lia].
Qed.

Lemma grid_ext (m : nat) (G G' : list (list R)) :
  length G = m -> length G' = m ->
  (forall r, (r < m)%nat -> length (nth r G []) = m) ->
  (forall r, (r < m)%nat -> length (nth r G' []) = m) ->
  (forall r c, (r < m)%nat -> (c < m)%nat ->
     nth c (nth r G []) 0 = nth c (nth r G' []) 0) ->
  G = G'.
Proof.
  intros HG HG' Hrow Hrow' Hnth.
  apply (nth_ext _ _ [] []); [lia |].
  intros r Hr. rewrite HG in Hr.
  apply (nth_ext _ _ 0 0).
  - rewrite Hrow, Hrow' by exact Hr. reflexivity.
  - intros c Hc. rewrite Hrow in Hc by exact Hr. apply Hnth; assumption.
Qed.

(** The two statements of the cell, run one after the other, give the
    closed form [initial_cell]. *)
Lemma initial_steps_closed_form (n : Z) :
  initial_steps n = initial_cell n.
Proof.
  unfold initial_steps, initial_cell, zero_rows, py_repeat.
  destruct (Z.leb_spec n 0) as [Hneg | Hpos].
  - replace (Z.to_nat n) with 0%nat by lia. reflexivity.
  - set (m := Z.to_nat n).
    assert (Hm : (1 <= m)%nat) by (unfold m; lia).
    destruct (repeat (repeat 0 m) m) as [| row0 rest] eqn:E.
    { destruct m; [lia | discriminate]. }
    rewrite <- E. clear E row0 rest. f_equal.
    assert (Ha : (0 <= n / 3 <= Z.of_nat m)%Z).
    { split; [apply Z.div_pos; lia |].
      assert (n / 3 <= n)%Z by (apply Z.div_le_upper_bound; lia).
      unfold m. lia. }
    assert (Hb : (0 <= 2 * n / 3 <= Z.of_nat m)%Z).
    { split; [apply Z.div_pos; lia |].
      assert (2 * n / 3 <= n)%Z by (apply Z.div_le_upper_bound; lia).
      unfold m. lia. }
    assert (Hlen : length (repeat (repeat 0 m) m) = m)
      by apply repeat_length.
    assert (Hrow : forall r, (r < m)%nat ->
              nth r (repeat (repeat 0 m) m) [] = repeat 0 m)
      by (intros r Hr; apply nth_repeat_lt; exact Hr).
    assert (Hblock : forall r, (r < m)%nat ->
              nth r (assign_block (repeat (repeat 0 m) m) (n / 3)
                       (2 * n / 3) (n / 3) (2 * n / 3) 50) []
              = if in_block n r
                then assign_slice (repeat 0 m) (n / 3) (2 * n / 3) 50
                else repeat 0 m).
    { intros r Hr. unfold assign_block.
      rewrite nth_update_range
        by (try apply slice_bound_le; rewrite Hlen; exact Hr).
      rewrite Hlen, !slice_bound_inside by assumption.
      rewrite Hrow by exact Hr. unfold in_block.
      destruct (Nat.leb_spec (Z.to_nat (n / 3)) r),
        (Z.leb_spec (n / 3) (Z.of_nat r)); try lia;
        destruct (Nat.ltb_spec r (Z.to_nat (2 * n / 3))),
          (Z.ltb_spec (Z.of_nat r) (2 * n / 3)); try lia; reflexivity. }
    assert (Hslice_len :
              length (assign_slice (repeat 0 m) (n / 3) (2 * n / 3) 50) = m).
    { unfold assign_slice. rewrite length_update_range, repeat_length;
        [reflexivity | apply slice_bound_le]. }
    assert (Hslice : forall c, (c < m)%nat ->
              nth c (assign_slice (repeat 0 m) (n / 3) (2 * n / 3) 50) 0
              = if in_block n c then 50 else 0).
    { intros c Hc. unfold assign_slice.
      rewrite nth_update_range
        by (try apply slice_bound_le; rewrite repeat_length; exact Hc).
      rewrite repeat_length, !slice_bound_inside by assumption.
      rewrite nth_repeat_lt by exact Hc. unfold in_block.
      destruct (Nat.leb_spec (Z.to_nat (n / 3)) c),
        (Z.leb_spec (n / 3) (Z.of_nat c)); try lia;
        destruct (Nat.ltb_spec c (Z.to_nat (2 * n / 3))),
          (Z.ltb_spec (Z.of_nat c) (2 * n / 3)); try lia; reflexivity. }
    apply (grid_ext m).
    + unfold assign_block. rewrite length_update_range;
        [exact Hlen | apply slice_bound_le].
    + rewrite length_map, length_seq. reflexivity.
    + intros r Hr. rewrite Hblock by exact Hr.
      destruct (in_block n r); [exact Hslice_len | apply repeat_length].
    + intros r Hr.
      rewrite (nth_indep _ []
                 (map (fun c => if in_block n 0 && in_block n c
                                then 50 else 0) (seq 0 m)))
        by (rewrite length_map, length_seq; exact Hr).
      rewrite (map_nth
                 (fun r => map (fun c => if in_block n r && in_block n c
                                         then 50 else 0) (seq 0 m))).
      rewrite length_map, length_seq. reflexivity.
    + intros r c Hr Hc.
      rewrite (nth_grid_rows
                 (fun r c => if in_block n r && in_block n c then 50 else 0))
        by assumption.
      rewrite Hblock by exact Hr.
      destruct (in_block n r); cbn [andb].
      * apply Hslice. exact Hc.
      * apply nth_repeat_lt. exact Hc.
Qed.

(** X2.  Run statement by statement (the rows of zeros from the
    comprehension, then the assignment of [50] through the two slices
    [n//3 : 2*n//3]), the initial-condition cell agrees with its closed form
    [initial_cell]: for [n <= 0] the assignment raises [IndexError]; for
    [n >= 1] the result has [n] rows of [n] values, [50] exactly on the rows
    and columns from [n//3] to [2n//3 - 1] and [0] everywhere else. *)
Theorem initial_steps_give_block (n : Z) :
  initial_steps n = initial_cell n
  /\ ((n <= 0)%Z -> initial_steps n = Raise IndexError)
  /\ ((1 <= n)%Z ->
      exists init,
        initial_steps n = Ok init
        /\ length init = Z.to_nat n
        /\ Forall (fun row => length row = Z.to_nat n) init
        /\ forall r c, (r < Z.to_nat n)%nat -> (c < Z.to_nat n)%nat ->
             nth c (nth r init []) 0
             = if ((n / 3 <=? Z.of_nat r)%Z && (Z.of_nat r <? 2 * n / 3)%Z)
                  && ((n / 3 <=? Z.of_nat c)%Z
                      && (Z.of_nat c <? 2 * n / 3)%Z)
               then 50 else 0).
Proof.
  split; [apply initial_steps_closed_form |].
  rewrite initial_steps_closed_form. unfold initial_cell. split.
  - intros Hn. destruct (Z.leb_spec n 0); [reflexivity | lia].
  - intros Hn. destruct (Z.leb_spec n 0); [lia |].
    eexists. split; [reflexivity |].
    split; [rewrite length_map, length_seq; reflexivity |].
    split.
    + apply Forall_forall. intros row Hin.
      apply in_map_iff in Hin as [r [<- _]].
      rewrite length_map, length_seq. reflexivity.
    + intros r c Hr Hc.
      rewrite (nth_grid_rows
                 (fun r c => if in_block n r && in_block n c then 50 else 0))
        by assumption.
      reflexivity.
Qed.

(** The cell on the grid of side 4: the block is the single cell at row 1,
    column 1. *)
Example initial_steps_scenario :
  initial_steps 4
  = Ok [[0; 0; 0; 0]; [0; 50; 0; 0]; [0; 0; 0; 0]; [0; 0; 0; 0]].
Proof. reflexivity. Qed.

(** ** Uniform states in binary64 *)

(** C9, as the specification words it, fails in the arithmetic of the
    notebook.  On the grid of side 4 with [g] the binary64 value of one
    tenth, the operator applied to the uniform vector of sevens returns
    [7.000000000000001] at the corner cell 0, and applied to the uniform
    vector of ones it returns [0.9999999999999999] at the edge cell 1: that
    row does not sum to 1.  Both hold with the entries of a row added by
    increasing column, as after [.tocsr()], and in the order of [data]. *)
Lemma uniform_state_moves_in_binary64 :
  exists M M',
    Float64.A 4 Float64.tenth = Ok M
    /\ Float64.A_dia 4 Float64.tenth = Ok M'
    /\ nth 0 (Float64.dot M (repeat 7%float 16)) 0%float
       = 0x1.c000000000001p+2%float
    /\ nth 0 (Float64.dot M' (repeat 7%float 16)) 0%float
       = 0x1.c000000000001p+2%float
    /\ Float64.dot M (repeat 7%float 16) <> repeat 7%float 16
    /\ nth 1 (Float64.dot M (repeat 1%float 16)) 0%float
       = 0x1.fffffffffffffp-1%float
    /\ nth 1 (Float64.dot M' (repeat 1%float 16)) 0%float
       = 0x1.fffffffffffffp-1%float
    /\ Float64.dot M (repeat 1%float 16) <> repeat 1%float 16.
Proof.
  eexists. eexists.
  split; [vm_compute; reflexivity |].
  split; [vm_compute; reflexivity |].
  split; [vm_compute; reflexivity |].
  split; [vm_compute; reflexivity |].
  split.
  { intros H.
    apply (f_equal (fun l => PrimFloat.eqb (nth 0 l 0%float) 7%float)) in H.
    vm_compute in H. discriminate H. }
  split; [vm_compute; reflexivity |].
  split; [vm_compute; reflexivity |].
  intros H.
  apply (f_equal (fun l => PrimFloat.eqb (nth 1 l 0%float) 1%float)) in H.
  vm_compute in H. discriminate H.
Qed.

(** With the notebook's own [g = 0.25] and its boundary value [50] the
    binary64 product is exact on the same grid. *)
Example uniform_state_fixed_at_quarter :
  exists M,
    Float64.A 4 0.25%float = Ok M
    /\ Float64.dot M (repeat 50%float 16) = repeat 50%float 16.
Proof.
  eexists. split; [vm_compute; reflexivity |]. vm_compute. reflexivity.
Qed.
